(** * Product API (Express + Mongoose): a shallow embedding of [server.js]

    The development follows the layout of the server file: the JavaScript
    values that reach the middleware, the three middleware functions
    ([authenticate], [validateProduct], [validateProductUpdate]), the
    document store behind the [Product] model, the route handlers, the
    global error-handling middleware and the route table.

    Conventions of the embedding.
    - A JavaScript string is a [string]: one character per code unit, in
      the range 0..255.
    - A JSON number is a rational ([Q]), the value of the double that
      holds it.  The integers of the pagination are exact ([Z]) within
      the range in which doubles count exactly, from [-2^53] to [2^53];
      nothing is stated about a request that leaves this range.  The
      sums and averages of the store are doubles that only approximate
      the exact figure ([approx]).
    - [undefined] is the absence of a value: [None] in a lookup.
    - An awaited store call or handler is a value of [Async]: it resolves,
      it rejects with an error (which [asyncHandler] hands to the
      error-handling middleware), or it depends on behaviour of the
      database driver that the repository does not fix. *)

From Stdlib Require Import ZArith QArith String Ascii List Bool Lia.
From stdpp Require Import base option list gmap strings sorting.

Close Scope Q_scope.
Open Scope string_scope.
Open Scope list_scope.
Open Scope Z_scope.

(** ** JavaScript values *)

Module JS.

(** The values a JSON body can hold.  An object is the list of its
    fields, which matters where the body is an update document of the
    store; an array only matters through [typeof] and truthiness. *)
#[local] Unset Elimination Schemes.

Inductive value : Type :=
| VNull
| VBool (b : bool)
| VNum (q : Q)
| VStr (s : string)
| VObject (fields : list (string * value))
| VArray.

#[local] Set Elimination Schemes.

Inductive jstype : Type :=
| TUndefined | TObject | TBoolean | TNumber | TString.

(** [typeof x], where [None] is [undefined]. *)
Definition typeof (x : option value) : jstype :=
  match x with
  | None => TUndefined
  | Some VNull => TObject
  | Some (VBool _) => TBoolean
  | Some (VNum _) => TNumber
  | Some (VStr _) => TString
  | Some (VObject _) => TObject
  | Some VArray => TObject
  end.

Definition jstype_eqb (a b : jstype) : bool :=
  match a, b with
  | TUndefined, TUndefined | TObject, TObject | TBoolean, TBoolean
  | TNumber, TNumber | TString, TString => true
  | _, _ => false
  end.

Definition str_nonempty (s : string) : bool :=
  match s with EmptyString => false | String _ _ => true end.

(** ToBoolean. *)
Definition truthy (x : option value) : bool :=
  match x with
  | None => false
  | Some VNull => false
  | Some (VBool b) => b
  | Some (VNum q) => negb (Qeq_bool q 0)
  | Some (VStr s) => str_nonempty s
  | Some (VObject _) => true
  | Some VArray => true
  end.

(** [x < 0] on numbers. *)
Definition Qltb (x y : Q) : bool := negb (Qle_bool y x).

(** White space as [String.prototype.trim] and [parseInt] see it, in the
    code-unit range of the embedding: TAB, LF, VT, FF, CR, SP, NBSP. *)
Definition is_ws (c : ascii) : bool :=
  let n := nat_of_ascii c in
  ((9 <=? n) && (n <=? 13))%nat || (n =? 32)%nat || (n =? 160)%nat.

Fixpoint drop_ws (l : list ascii) : list ascii :=
  match l with
  | c :: l' => if is_ws c then drop_ws l' else l
  | [] => []
  end.

(** [s.trim()] *)
Definition trim (s : string) : string :=
  string_of_list_ascii
    (rev (drop_ws (rev (drop_ws (list_ascii_of_string s))))).

(** [s.trim().length === 0] *)
Definition blank (s : string) : bool :=
  (String.length (trim s) =? 0)%nat.

(** ASCII lower-casing, the folding a case-insensitive match uses on the
    letters A-Z. *)
Definition lower (c : ascii) : ascii :=
  let n := nat_of_ascii c in
  if ((65 <=? n) && (n <=? 90))%nat then ascii_of_nat (n + 32) else c.

(** [haystack.includes(needle)] on lists of code units. *)
Fixpoint prefixb (p l : list ascii) : bool :=
  match p, l with
  | [], _ => true
  | a :: p', b :: l' => Ascii.eqb a b && prefixb p' l'
  | _ :: _, [] => false
  end.

Fixpoint infixb (p l : list ascii) : bool :=
  prefixb p l ||
  match l with
  | [] => false
  | _ :: l' => infixb p l'
  end.

Definition includes (haystack needle : string) : bool :=
  infixb (list_ascii_of_string needle) (list_ascii_of_string haystack).

End JS.

Export JS.

(** ** Responses and errors *)

(** The products as the schema of [models/products] stores them.  Paths
    outside the schema (such as [description] in the seed data) are
    dropped by the model; [createdAt] and [updatedAt] come from
    [timestamps: true], as milliseconds.  The path [inStock] is not
    required: a stored document may lack it ([None]), which an update
    with [$unset] brings about. *)
Record Product : Type := mkDocument {
  id : string;
  name : string;
  price : Q;
  category : string;
  stored_inStock : option bool;
  createdAt : Z;
  updatedAt : Z
}.

(** [doc.inStock] on a document loaded through the model: the stored
    value, or the default of the schema where the document has none. *)
Definition inStock (p : Product) : bool := default true (stored_inStock p).

(** A document that has all its paths. *)
Definition mkProduct (id name : string) (price : Q) (category : string)
    (inStock : bool) (createdAt updatedAt : Z) : Product :=
  mkDocument id name price category (Some inStock) createdAt updatedAt.

(** An [Error] object as the error-handling middleware reads it. *)
Record JsError : Type := mkError {
  e_name : string;
  e_message : string;
  e_statusCode : option Z;
  e_status : option value;
  e_errors : option (list (string * string));  (* path, message *)
  e_path : option string;
  e_value : option string;
  e_isOperational : bool;
  e_stack : string
}.

(** A JavaScript number that holds an integer between [-2^53] and
    [2^53], or one of the two special values the pagination arithmetic
    can produce. *)
Inductive num : Type :=
| NaN
| Int (z : Z)
| Infinity.

Record Pagination : Type := mkPagination {
  currentPage : num;
  totalPages : num;
  totalProducts : Z;
  limit : num
}.

(** A double that the store has computed by floating-point addition and
    division: it approximates the exact figure [exact], and need not be
    equal to it. *)
Inductive approx : Type :=
| Approx (exact : Q).

Record PriceStats : Type := mkPriceStats {
  averagePrice : approx;
  minPrice : Q;
  maxPrice : Q
}.

Record CategoryStat : Type := mkCategoryStat {
  cs_id : string;
  cs_count : Z;
  cs_averagePrice : approx;
  cs_totalValue : approx
}.

Record Statistics : Type := mkStatistics {
  st_totalProducts : Z;
  st_inStock : Z;
  st_outOfStock : Z;
  st_priceStatistics : option PriceStats;   (* [None] renders as [{}] *)
  st_categoryBreakdown : list CategoryStat
}.

(** The JSON bodies the server sends. *)
Inductive Body : Type :=
| ErrorBody (status : value) (message : string)
            (errors : option (list string)) (stack : option string)
| WelcomeBody
| ListBody (results : nat) (pagination : Pagination) (data : list Product)
| SearchBody (results : nat) (searchQuery : string) (data : list Product)
| StatsBody (data : Statistics)
| ProductBody (message : option string) (data : Product).

Record Response : Type := mkResponse {
  statusCode : Z;
  body : Body
}.

(** What a middleware does: call [next()], or end the request. *)
Inductive Middleware : Type :=
| Next
| Respond (r : Response).

(** [process.env] *)
Record Env : Type := mkEnv {
  API_KEY : option string;
  NODE_ENV : option string
}.

(** ** Middleware *)

Definition opt_string_eqb (a : option string) (b : option string) : bool :=
  match a, b with
  | Some x, Some y => String.eqb x y
  | None, None => true
  | _, _ => false
  end.

(** [authenticate]: [apiKey] is [req.headers['api-key']]. *)
Definition authenticate (env : Env) (apiKey : option string) : Middleware :=
  if negb (truthy (VStr <$> apiKey)) then
    Respond (mkResponse 401
      (ErrorBody (VStr "error")
         "API key is required. Please provide api-key in headers." None None))
  else if negb (opt_string_eqb apiKey (API_KEY env))
          && negb (opt_string_eqb apiKey (Some "your-secret-api-key")) then
    Respond (mkResponse 401 (ErrorBody (VStr "error") "Invalid API key" None None))
  else Next.

(** The request body after [bodyParser.json()]: an object. *)
Abbreviation ReqBody := (gmap string value).

(** [errors.push(m)] when [c] holds. *)
Definition push_if (c : bool) (m : string) (errors : list string) : list string :=
  if c then errors ++ [m] else errors.

(** [!x || typeof x !== 'string' || x.trim().length === 0] *)
Definition missing_or_blank (x : option value) : bool :=
  negb (truthy x) ||
  match x with
  | Some (VStr s) => blank s
  | _ => true
  end.

(** [typeof x !== 'string' || x.trim().length === 0] *)
Definition not_string_or_blank (x : option value) : bool :=
  match x with
  | Some (VStr s) => blank s
  | _ => true
  end.

(** [typeof x !== 'number' || x < 0] *)
Definition not_number_or_negative (x : option value) : bool :=
  match x with
  | Some (VNum q) => Qltb q 0
  | _ => true
  end.

Definition is_undefined (x : option value) : bool :=
  match x with None => true | Some _ => false end.

Definition is_nullish (x : option value) : bool :=
  match x with None | Some VNull => true | Some _ => false end.

Definition not_boolean (x : option value) : bool :=
  negb (jstype_eqb (typeof x) TBoolean).

Definition validation_failed (errors : list string) : Middleware :=
  match errors with
  | [] => Next
  | _ :: _ =>
      Respond (mkResponse 400
        (ErrorBody (VStr "error") "Validation failed" (Some errors) None))
  end.

Module Msg.
Definition name_required := "Name is required and must be a non-empty string".
Definition price_required := "Price is required".
Definition price_negative := "Price must be a non-negative number".
Definition category_required :=
  "Category is required and must be a non-empty string".
Definition inStock_boolean := "inStock must be a boolean value".
Definition name_blank := "Name must be a non-empty string".
Definition category_blank := "Category must be a non-empty string".
End Msg.

(** The [errors] array of [validateProduct] just before it is tested. *)
Definition validateProduct_errors (b : ReqBody) : list string :=
  let name := b !! "name" in
  let price := b !! "price" in
  let category := b !! "category" in
  let errors := [] in
  let errors := push_if (missing_or_blank name) Msg.name_required errors in
  let errors :=
    if is_nullish price then errors ++ [Msg.price_required]
    else push_if (not_number_or_negative price) Msg.price_negative errors in
  let errors :=
    push_if (missing_or_blank category) Msg.category_required errors in
  let errors :=
    push_if (negb (is_undefined (b !! "inStock")) && not_boolean (b !! "inStock"))
            Msg.inStock_boolean errors in
  errors.

Definition validateProduct (b : ReqBody) : Middleware :=
  validation_failed (validateProduct_errors b).

(** The [errors] array of [validateProductUpdate]. *)
Definition validateProductUpdate_errors (b : ReqBody) : list string :=
  let name := b !! "name" in
  let price := b !! "price" in
  let category := b !! "category" in
  let inStock := b !! "inStock" in
  let errors := [] in
  let errors :=
    push_if (negb (is_undefined name) && not_string_or_blank name)
            Msg.name_blank errors in
  let errors :=
    push_if (negb (is_undefined price) && not_number_or_negative price)
            Msg.price_negative errors in
  let errors :=
    push_if (negb (is_undefined category) && not_string_or_blank category)
            Msg.category_blank errors in
  let errors :=
    push_if (negb (is_undefined inStock) && not_boolean inStock)
            Msg.inStock_boolean errors in
  errors.

Definition validateProductUpdate (b : ReqBody) : Middleware :=
  validation_failed (validateProductUpdate_errors b).

(** ** Numbers of the query string *)

Module Num.

Definition digit_val (radix : Z) (c : ascii) : option Z :=
  let n := Z.of_nat (nat_of_ascii c) in
  let d :=
    if (48 <=? n) && (n <=? 57) then Some (n - 48)
    else if (97 <=? n) && (n <=? 122) then Some (n - 87)
    else if (65 <=? n) && (n <=? 90) then Some (n - 55)
    else None in
  match d with
  | Some v => if v <? radix then Some v else None
  | None => None
  end.

(** The longest prefix of digits, read in [radix]; [acc] is [None]
    until a first digit has been read. *)
Fixpoint digits (radix : Z) (l : list ascii) (acc : option Z) : option Z :=
  match l with
  | c :: l' =>
      match digit_val radix c with
      | Some d => digits radix l' (Some (radix * default 0 acc + d))
      | None => acc
      end
  | [] => acc
  end.

(** The integers that a double holds exactly and that the arithmetic on
    doubles keeps exact. *)
Definition safe (z : Z) : bool := (- 2 ^ 53 <=? z) && (z <=? 2 ^ 53).

Definition exact (z : Z) : option num :=
  if safe z then Some (Int z) else None.

(** [parseInt(s)] without a radix argument.  [None] for a numeral beyond
    the exact range, where the result is a rounded double. *)
Definition parseInt (s : string) : option num :=
  let l := drop_ws (list_ascii_of_string s) in
  let '(sign, l) :=
    match l with
    | "-"%char :: l' => (-1, l')
    | "+"%char :: l' => (1, l')
    | _ => (1, l)
    end in
  let '(radix, l) :=
    match l with
    | "0"%char :: "x"%char :: l' => (16, l')
    | "0"%char :: "X"%char :: l' => (16, l')
    | _ => (10, l)
    end in
  match digits radix l None with
  | Some v => exact (sign * v)
  | None => Some NaN
  end.

(** [parseInt(x)] for [const { x = d } = req.query]. *)
Definition parseInt_or (x : option string) (d : Z) : option num :=
  match x with
  | Some s => parseInt s
  | None => exact d
  end.

(** [(a - 1) * b]; [None] when the difference or the product leaves the
    exact range. *)
Definition pred_times (a b : num) : option num :=
  match a, b with
  | NaN, _ | _, NaN => Some NaN
  | Int x, Int y => if safe (x - 1) then exact ((x - 1) * y) else None
  | _, _ => None
  end.

(** [Math.ceil(total / l)] for [total >= 0], the number of documents of
    a collection, which stays far below [2^53]. *)
Definition ceil_div (total : Z) (l : num) : num :=
  match l with
  | NaN => NaN
  | Infinity => Int 0
  | Int 0 => if total =? 0 then NaN else Infinity
  | Int d => Int (- ((- total) / d))
  end.

End Num.

(** ** Regular expressions of [$regex]

    The fragment of the pattern language the embedding covers: a sequence
    of literal ASCII characters and dots.  A pattern that uses any other
    special character, the character NUL, or a character above 127 is
    outside the fragment ([compile] gives [None]). *)

Module Regex.

Inductive atom : Type :=
| Lit (c : ascii)
| AnyChar.

Definition special : list ascii :=
  list_ascii_of_string "\^$|?*+()[]{}".

Definition is_special (c : ascii) : bool :=
  existsb (Ascii.eqb c) special.

Definition compile_char (c : ascii) : option atom :=
  if Ascii.eqb c "."%char then Some AnyChar
  else if is_special c || (128 <=? nat_of_ascii c)%nat
          || (nat_of_ascii c =? 0)%nat then None
  else Some (Lit c).

Fixpoint compile_list (l : list ascii) : option (list atom) :=
  match l with
  | [] => Some []
  | c :: l' =>
      match compile_char c, compile_list l' with
      | Some a, Some r => Some (a :: r)
      | _, _ => None
      end
  end.

Definition compile (pattern : string) : option (list atom) :=
  compile_list (list_ascii_of_string pattern).

(** One atom against one character; [ci] is the [i] option. *)
Definition atom_match (ci : bool) (a : atom) (c : ascii) : bool :=
  match a with
  | Lit x => if ci then Ascii.eqb (lower x) (lower c) else Ascii.eqb x c
  | AnyChar => negb (Ascii.eqb c "010"%char)
  end.

Fixpoint match_here (ci : bool) (r : list atom) (l : list ascii) : bool :=
  match r, l with
  | [], _ => true
  | a :: r', c :: l' => atom_match ci a c && match_here ci r' l'
  | _ :: _, [] => false
  end.

(** An unanchored pattern matches when it matches at some position. *)
Fixpoint search (ci : bool) (r : list atom) (l : list ascii) : bool :=
  match_here ci r l ||
  match l with
  | [] => false
  | _ :: l' => search ci r l'
  end.

(** [$options]: only the empty string and ["i"] are covered. *)
Definition case_insensitive (options : string) : option bool :=
  if String.eqb options "" then Some false
  else if String.eqb options "i" then Some true
  else None.

(** [{ $regex: pattern, $options: options }] as a test on a string. *)
Definition test (pattern options : string) : option (string -> bool) :=
  match compile pattern, case_insensitive options with
  | Some r, Some ci => Some (fun s => search ci r (list_ascii_of_string s))
  | _, _ => None
  end.

End Regex.

(** ** Errors the server and the store raise *)

(** Of [err.stack] the embedding keeps the first line; the frames that
    follow it are left out.  The line is fixed when the error is
    constructed.  For the error classes of [server.js] this is inside
    [super(message)], before [this.name] is assigned, so the line begins
    with the inherited name [Error]. *)
Definition stack_of (message : string) : string := "Error: " +:+ message.

(** The first line of the stack of an error whose class has its name on
    the prototype, as the built-in and the driver's errors have. *)
Definition header_of (name message : string) : string :=
  name +:+ ": " +:+ message.

Definition NotFoundError (message : string) : JsError :=
  mkError "NotFoundError" message (Some 404) None None None None true
          (stack_of message).

Definition ValidationError (message : string) : JsError :=
  mkError "ValidationError" message (Some 400) None None None None true
          (stack_of message).

Definition AuthenticationError (message : string) : JsError :=
  mkError "AuthenticationError" message (Some 401) None None None None true
          (stack_of message).

(** The rejection of a write that breaks the unique index on [id]; the
    tail of the driver's message, which names the index, is left out. *)
Definition DuplicateKeyError : JsError :=
  mkError "MongoServerError" "E11000 duplicate key error" None None None None
          None false
          (header_of "MongoServerError" "E11000 duplicate key error").

(** ** Awaited computations

    What awaiting a promise gives: its value, the error it rejects with,
    or, for the calls into the store whose arguments the repository does
    not constrain (a negative or non-numeric limit, a pattern outside the
    modelled fragment, a value the schema would have to cast),
    [DriverDefined]: nothing is stated about those. *)

Inductive Async (A : Type) : Type :=
| Resolved (a : A)
| Rejected (e : JsError)
| DriverDefined.

Arguments Resolved {A} a.
Arguments Rejected {A} e.
Arguments DriverDefined {A}.

Definition await {A B : Type} (m : Async A) (k : A -> Async B) : Async B :=
  match m with
  | Resolved a => k a
  | Rejected e => Rejected e
  | DriverDefined => DriverDefined
  end.

Notation "'let!' x ':=' m 'in' k" := (await m (fun x => k))
  (at level 10, x name, m at level 100, k at level 200).

Notation "'let!' ' p ':=' m 'in' k" := (await m (fun p => k))
  (at level 10, p strict pattern, m at level 100, k at level 200).

(** [Some] resolves; [None] is left to the driver. *)
Definition covered {A : Type} (o : option A) : Async A :=
  match o with
  | Some a => Resolved a
  | None => DriverDefined
  end.

(** ** The document store behind the [Product] model

    The collection is the list of its documents in insertion order. *)

Abbreviation Store := (list Product).

Module Mongo.

(** The conditions the handlers put in a filter object. *)
Inductive Cond : Type :=
| CId (s : string)
| CCategory (s : string)
| CInStock (b : bool)
| CNameRegex (pattern options : string).

Abbreviation Filter := (list Cond).

Definition cond_test (c : Cond) : option (Product -> bool) :=
  match c with
  | CId s => Some (fun p => String.eqb (id p) s)
  | CCategory s => Some (fun p => String.eqb (category p) s)
  | CInStock b =>
      Some (fun p =>
              match stored_inStock p with
              | Some x => Bool.eqb x b
              | None => false
              end)
  | CNameRegex pattern options =>
      match Regex.test pattern options with
      | Some t => Some (fun p => t (name p))
      | None => None
      end
  end.

Fixpoint filter_test (f : Filter) : option (Product -> bool) :=
  match f with
  | [] => Some (fun _ => true)
  | c :: f' =>
      match cond_test c, filter_test f' with
      | Some t, Some u => Some (fun p => t p && u p)
      | _, _ => None
      end
  end.

(** [Product.countDocuments(f)] *)
Definition countDocuments (st : Store) (f : Filter) : Async Z :=
  let! t := covered (filter_test f) in
  Resolved (Z.of_nat (length (List.filter t st))).

(** [{ name: 1 }]: strings in the order of their code units. *)
Inductive SortSpec : Type :=
| NameAsc.

Definition name_le (p q : Product) : Prop :=
  Is_true (String.leb (name p) (name q)).

#[export] Instance name_le_dec : RelDecision name_le :=
  fun p q => Is_true_dec (String.leb (name p) (name q)).

(** The store fixes no order among documents of equal name, and may
    order them differently from one query to the next.  Each query
    therefore comes with a ranking [tie] of the documents, which stands
    for the choice the store makes for this query: of two documents of
    equal name, the one of lower rank comes first. *)
Definition tie_leb (tie : Product -> nat) (p q : Product) : bool :=
  String.ltb (name p) (name q)
  || (String.eqb (name p) (name q) && (tie p <=? tie q)%nat).

Definition tie_le (tie : Product -> nat) (p q : Product) : Prop :=
  Is_true (tie_leb tie p q).

#[export] Instance tie_le_dec (tie : Product -> nat) : RelDecision (tie_le tie) :=
  fun p q => Is_true_dec (tie_leb tie p q).

Definition sort_by (tie : Product -> nat) (s : SortSpec) (l : list Product)
  : list Product :=
  match s with
  | NameAsc => merge_sort (tie_le tie) l
  end.

(** The ranking of a query that asks for no sort, where none is
    consulted. *)
Definition unsorted : Product -> nat := fun _ => 0%nat.

(** A query under construction: [find] starts it, the chained calls
    record their option, and nothing runs until the query is awaited. *)
Record Query : Type := mkQuery {
  q_filter : Filter;
  q_limit : option num;
  q_skip : option num;
  q_sort : option SortSpec
}.

Definition find (f : Filter) : Query := mkQuery f None None None.

Definition with_limit (n : num) (q : Query) : Query :=
  mkQuery (q_filter q) (Some n) (q_skip q) (q_sort q).

Definition with_skip (n : num) (q : Query) : Query :=
  mkQuery (q_filter q) (q_limit q) (Some n) (q_sort q).

Definition with_sort (s : SortSpec) (q : Query) : Query :=
  mkQuery (q_filter q) (q_limit q) (q_skip q) (Some s).

(** The server skips a non-negative number of documents. *)
Definition apply_skip (n : option num) (l : list Product)
  : option (list Product) :=
  match n with
  | None => Some l
  | Some (Int z) => if 0 <=? z then Some (drop (Z.to_nat z) l) else None
  | Some _ => None
  end.

(** A limit of 0 is no limit; a positive limit bounds the result. *)
Definition apply_limit (n : option num) (l : list Product)
  : option (list Product) :=
  match n with
  | None => Some l
  | Some (Int z) =>
      if z =? 0 then Some l
      else if 0 <? z then Some (take (Z.to_nat z) l)
      else None
  | Some _ => None
  end.

(** Awaiting a query: filter, then sort, then skip, then limit, in this
    order whatever the order of the chained calls. *)
Definition exec (tie : Product -> nat) (st : Store) (q : Query)
  : Async (list Product) :=
  let! t := covered (filter_test (q_filter q)) in
  let rows := List.filter t st in
  let rows :=
    match q_sort q with
    | Some s => sort_by tie s rows
    | None => rows
    end in
  let! rows := covered (apply_skip (q_skip q) rows) in
  covered (apply_limit (q_limit q) rows).

(** [Product.findOne(f)] *)
Definition findOne (st : Store) (f : Filter) : Async (option Product) :=
  let! t := covered (filter_test f) in
  Resolved (head (List.filter t st)).

(** The first document that passes [t], with what is before and after. *)
Fixpoint split_first (t : Product -> bool) (st : Store)
  : option (list Product * Product * list Product) :=
  match st with
  | [] => None
  | p :: st' =>
      if t p then Some ([], p, st')
      else
        match split_first t st' with
        | Some (before, x, after) => Some (p :: before, x, after)
        | None => None
        end
  end.

Definition has_id (s : string) (p : Product) : bool := String.eqb (id p) s.

(** Paths the store manages itself; a document that names one of them
    is not covered. *)
Definition managed : list string := ["_id"; "__v"; "createdAt"; "updatedAt"].

Definition names_managed (b : ReqBody) : bool :=
  existsb (fun k => negb (is_undefined (b !! k))) managed.

(** *** Update documents

    [findOneAndUpdate] receives [req.body] whole.  The model of the
    schema moves its plain fields under [$set] and keeps the keys that
    begin with a dollar sign as update operators.  Covered are the
    operators [$set] and [$unset]; a document with another operator, with
    a dotted path, with a path named twice, or with a value that the
    schema would have to convert or refuse, is not covered. *)

Definition plain (k : string) : bool :=
  forallb (fun c => negb (Ascii.eqb c "."%char) && negb (Ascii.eqb c "$"%char))
          (list_ascii_of_string k).

Definition key_ok (k : string) : bool :=
  String.eqb k "$set" || String.eqb k "$unset" || plain k.

(** The fields under the operator [op]: none when the operator is
    absent; otherwise the operand must be an object with at least one
    field and no field twice. *)
Definition operand (b : ReqBody) (op : string)
  : option (list (string * value)) :=
  match b !! op with
  | None => Some []
  | Some (VObject (f :: fs)) =>
      if bool_decide (NoDup (fst <$> f :: fs)) then Some (f :: fs) else None
  | Some _ => None
  end.

Fixpoint assoc (k : string) (fs : list (string * value)) : option value :=
  match fs with
  | [] => None
  | (k', v) :: fs' => if String.eqb k' k then Some v else assoc k fs'
  end.

Definition mentions (k : string) (fs : list (string * value)) : bool :=
  existsb (String.eqb k) (fst <$> fs).

(** What an update does to a path: leave it, give it a value, remove
    it. *)
Inductive change (A : Type) : Type :=
| Keep
| Put (a : A)
| Remove.

Arguments Keep {A}.
Arguments Put {A} a.
Arguments Remove {A}.

(** Casting a value to the schema type of its path.  Only a value of
    that type is covered ([required] strings must not be empty). *)
Definition cast_String (x : option value) : option (change string) :=
  match x with
  | None => Some Keep
  | Some (VStr (String c s)) => Some (Put (String c s))
  | Some _ => None
  end.

Definition cast_Number (x : option value) : option (change Q) :=
  match x with
  | None => Some Keep
  | Some (VNum q) => Some (Put q)
  | Some _ => None
  end.

Definition cast_Boolean (x : option value) : option (change bool) :=
  match x with
  | None => Some Keep
  | Some (VBool b) => Some (Put b)
  | Some _ => None
  end.

(** What an update document does to each path of the schema. *)
Record Update : Type := mkUpdate {
  u_id : change string;
  u_name : change string;
  u_price : change Q;
  u_category : change string;
  u_inStock : change bool
}.

Definition required : list string := ["id"; "name"; "price"; "category"].

(** The value an update document sets a path to, at top level or under
    [$set]. *)
Definition setting (b : ReqBody) (sets : list (string * value)) (k : string)
  : option value :=
  match b !! k with
  | Some v => Some v
  | None => assoc k sets
  end.

(** The update document [b], cast against the schema and validated
    ([runValidators: true]), which happens before the store is asked. *)
Definition cast_update (b : ReqBody) : option Update :=
  let keys := fst <$> map_to_list b in
  match operand b "$set", operand b "$unset" with
  | Some sets, Some unsets =>
      let under := (fst <$> sets) ++ (fst <$> unsets) in
      if negb (forallb key_ok keys) || negb (forallb plain under)
         || names_managed b
         || existsb (fun k => existsb (String.eqb k) managed) under
         || existsb (fun k => negb (is_undefined (b !! k))) under
         || existsb (fun k => mentions k sets) (fst <$> unsets)
         || existsb (fun k => mentions k unsets) required
      then None
      else
        match cast_String (setting b sets "id"),
              cast_String (setting b sets "name"),
              cast_Number (setting b sets "price"),
              cast_String (setting b sets "category"),
              cast_Boolean (setting b sets "inStock") with
        | Some i, Some n, Some pr, Some c, Some s =>
            Some (mkUpdate i n pr c
                    (if mentions "inStock" unsets then Remove else s))
        | _, _, _, _, _ => None
        end
  | _, _ => None
  end.

Definition changed {A : Type} (c : change A) (old : A) : A :=
  match c with
  | Put a => a
  | _ => old
  end.

(** The update [u] applied to [p] at time [now].  With [timestamps:
    true] the store sets [updatedAt] itself, on every update, and leaves
    [createdAt]. *)
Definition apply_update (u : Update) (now : Z) (p : Product) : Product :=
  mkDocument (changed (u_id u) (id p)) (changed (u_name u) (name p))
             (changed (u_price u) (price p))
             (changed (u_category u) (category p))
             match u_inStock u with
             | Keep => stored_inStock p
             | Put x => Some x
             | Remove => None
             end
             (createdAt p) now.

(** [Product.findOneAndUpdate({ id: key }, b, { new: true, runValidators:
    true })]: the updated document, or [null]. *)
Definition findOneAndUpdate (st : Store) (key : string) (b : ReqBody)
    (now : Z) : Async (option Product * Store) :=
  let! u := covered (cast_update b) in
  match split_first (has_id key) st with
  | None => Resolved (None, st)
  | Some (before, p, after) =>
      let p' := apply_update u now p in
      if existsb (has_id (id p')) (before ++ after) then
        Rejected DuplicateKeyError
      else Resolved (Some p', before ++ p' :: after)
  end.

(** [Product.findOneAndDelete({ id: key })] *)
Definition findOneAndDelete (st : Store) (key : string)
  : Async (option Product * Store) :=
  match split_first (has_id key) st with
  | None => Resolved (None, st)
  | Some (before, p, after) => Resolved (Some p, before ++ after)
  end.

(** [new Product(data).save()] at time [now]; [inStock] takes the
    default of the schema when [data] has none. *)
Definition create (data : ReqBody) (now : Z) : option Product :=
  if names_managed data then None
  else
    match data !! "id", data !! "name", data !! "price",
          data !! "category",
          cast_Boolean (data !! "inStock") with
    | Some (VStr (String a i)), Some (VStr (String b n)), Some (VNum pr),
      Some (VStr (String c g)), Some s =>
        Some (mkProduct (String a i) (String b n) pr (String c g)
                        (changed s true) now now)
    | _, _, _, _, _ => None
    end.

Definition save (st : Store) (data : ReqBody) (now : Z)
  : Async (Product * Store) :=
  let! p := covered (create data now) in
  if existsb (has_id (id p)) st then Rejected DuplicateKeyError
  else Resolved (p, st ++ [p]).

(** *** Aggregation *)

(** The exact sum and the exact average of a list of numbers, which
    [$sum] and [$avg] approximate. *)
Definition Qsum (l : list Q) : Q := Qred (fold_left Qplus l (inject_Z 0)).

Definition Qavg (l : list Q) : Q :=
  Qred (Qdiv (Qsum l) (inject_Z (Z.of_nat (length l)))).

Definition Qmin2 (a b : Q) : Q := if Qle_bool a b then a else b.
Definition Qmax2 (a b : Q) : Q := if Qle_bool a b then b else a.

(** [$group] with [_id: null]: no document in, no group out. *)
Definition priceStats (st : Store) : option PriceStats :=
  match price <$> st with
  | [] => None
  | q :: l =>
      Some (mkPriceStats (Approx (Qavg (q :: l))) (fold_left Qmin2 l q)
                         (fold_left Qmax2 l q))
  end.

Definition group (st : Store) (c : string) : CategoryStat :=
  let prices := price <$> List.filter (fun p => String.eqb (category p) c) st in
  mkCategoryStat c (Z.of_nat (length prices)) (Approx (Qavg prices))
                 (Approx (Qsum prices)).

Definition count_ge (a b : CategoryStat) : Prop := cs_count b <= cs_count a.

#[export] Instance count_ge_dec : RelDecision count_ge :=
  fun a b => decide (cs_count b <= cs_count a).

(** [$group] by [$category], then [$sort] by [count] descending.  The
    store fixes no order among groups of equal count; here they keep
    the order in which the categories first occur. *)
Definition categoryStats (st : Store) : list CategoryStat :=
  merge_sort count_ge (group st <$> remove_dups (category <$> st)).

End Mongo.

(** ** Requests *)

(** The methods the routes are registered for, and one that no route
    takes. *)
Inductive Method : Type :=
| GET | POST | PUT | DELETE | PATCH.

(** A request as the routes see it, after [bodyParser.json()] and the
    query-string parser: [path] is the list of the segments of the URL
    path, [query] and [headers] hold plain strings. *)
Record Request : Type := mkRequest {
  method : Method;
  path : list string;
  originalUrl : string;
  query : gmap string string;
  headers : gmap string string;
  reqBody : ReqBody
}.

(** What a request reads from outside: the clock of the store, the
    token [uuidv4()] returns, and the order the store chooses, for this
    request, among documents of equal sort key. *)
Record Ambient : Type := mkAmbientWith {
  now : Z;
  uuid : string;
  tie : Product -> nat
}.

(** An ambient whose store ranks all documents alike. *)
Definition mkAmbient (now : Z) (uuid : string) : Ambient :=
  mkAmbientWith now uuid Mongo.unsorted.

Definition dquote : string := String (ascii_of_nat 34) EmptyString.

(** ** Route handlers *)

Import Mongo.

(** [seedDatabase] *)
Definition initialProducts (now : Z) : list Product :=
  [ mkProduct "1" "Laptop" (inject_Z 1200) "electronics" true now now;
    mkProduct "2" "Smartphone" (inject_Z 800) "electronics" true now now;
    mkProduct "3" "Coffee Maker" (inject_Z 50) "kitchen" false now now;
    mkProduct "4" "Wireless Mouse" (inject_Z 25) "electronics" true now now;
    mkProduct "5" "Blender" (inject_Z 80) "kitchen" true now now ].

Definition seedDatabase (now : Z) (st : Store) : Store :=
  match st with
  | [] => initialProducts now
  | _ :: _ => st
  end.

(** [GET /api/products] *)
Definition listProducts (amb : Ambient) (st : Store)
    (query : gmap string string) : Async Response :=
  let category := query !! "category" in
  let inStock := query !! "inStock" in
  let! page := covered (Num.parseInt_or (query !! "page") 1) in
  let! limit := covered (Num.parseInt_or (query !! "limit") 10) in
  let filter := [] in
  let filter :=
    match category with
    | Some (String a c) => filter ++ [CCategory (String a c)]
    | _ => filter
    end in
  let filter :=
    match inStock with
    | Some s => filter ++ [CInStock (String.eqb s "true")]
    | None => filter
    end in
  let! skip := covered (Num.pred_times page limit) in
  let! totalProducts := countDocuments st filter in
  let totalPages := Num.ceil_div totalProducts limit in
  let! products :=
    exec (tie amb) st
         (with_sort NameAsc (with_skip skip (with_limit limit (find filter)))) in
  Resolved (mkResponse 200
    (ListBody (length products)
       (mkPagination page totalPages totalProducts limit) products)).

(** [GET /api/products/search] *)
Definition searchProducts (st : Store) (query : gmap string string)
  : Async Response :=
  match query !! "q" with
  | Some (String a q') =>
      let q := String a q' in
      let! products := exec unsorted st (find [CNameRegex q "i"]) in
      Resolved (mkResponse 200 (SearchBody (length products) q products))
  | _ =>
      Rejected (ValidationError
        ("Search query parameter " +:+ dquote +:+ "q" +:+ dquote +:+ " is required"))
  end.

(** [GET /api/products/statistics] *)
Definition statistics (st : Store) : Async Response :=
  let categoryStats := Mongo.categoryStats st in
  let! totalProducts := countDocuments st [] in
  let! inStockCount := countDocuments st [CInStock true] in
  let! outOfStockCount := countDocuments st [CInStock false] in
  let priceStats := Mongo.priceStats st in
  Resolved (mkResponse 200
    (StatsBody (mkStatistics totalProducts inStockCount outOfStockCount
                  priceStats categoryStats))).

Definition not_found_message (key : string) : string :=
  "Product with id " +:+ key +:+ " not found".

(** [GET /api/products/:id] *)
Definition getProduct (st : Store) (key : string) : Async Response :=
  let! product := findOne st [CId key] in
  match product with
  | None => Rejected (NotFoundError (not_found_message key))
  | Some p => Resolved (mkResponse 200 (ProductBody None p))
  end.

(** [{ ...req.body, id: req.body.id || uuidv4() }] *)
Definition productData (amb : Ambient) (b : ReqBody) : ReqBody :=
  <["id" := if truthy (b !! "id") then default VNull (b !! "id")
            else VStr (uuid amb)]> b.

(** [POST /api/products] *)
Definition createProduct (amb : Ambient) (st : Store) (b : ReqBody)
  : Async (Response * Store) :=
  let! '(newProduct, st') := save st (productData amb b) (now amb) in
  Resolved (mkResponse 201
              (ProductBody (Some "Product created successfully") newProduct),
            st').

(** [PUT /api/products/:id] *)
Definition updateProduct (amb : Ambient) (st : Store) (key : string)
    (b : ReqBody) : Async (Response * Store) :=
  let! '(updatedProduct, st') := findOneAndUpdate st key b (now amb) in
  match updatedProduct with
  | None => Rejected (NotFoundError (not_found_message key))
  | Some p =>
      Resolved (mkResponse 200
                  (ProductBody (Some "Product updated successfully") p), st')
  end.

(** [DELETE /api/products/:id] *)
Definition deleteProduct (st : Store) (key : string)
  : Async (Response * Store) :=
  let! '(deletedProduct, st') := findOneAndDelete st key in
  match deletedProduct with
  | None => Rejected (NotFoundError (not_found_message key))
  | Some p =>
      Resolved (mkResponse 200
                  (ProductBody (Some "Product deleted successfully") p), st')
  end.

(** ** The global error-handling middleware *)

(** How a request ends: with a response, or with an exception that the
    error-handling middleware itself raised and that leaves the
    application. *)
Inductive Final : Type :=
| Sent (r : Response)
| Uncaught (e : JsError).

Fixpoint join (sep : string) (l : list string) : string :=
  match l with
  | [] => ""
  | [x] => x
  | x :: l' => x +:+ sep +:+ join sep l'
  end.

(** [`${x}`] for a property that may be missing. *)
Definition interpolate (x : option string) : string := default "undefined" x.

(** [Object.values(undefined)] *)
Definition TypeError_values : JsError :=
  mkError "TypeError" "Cannot convert undefined or null to object" None None
          None None None false
          (header_of "TypeError" "Cannot convert undefined or null to object").

Definition errorHandler (env : Env) (err : JsError) : Final :=
  let statusCode :=
    match e_statusCode err with
    | Some c => if c =? 0 then 500 else c
    | None => 500
    end in
  let status :=
    match e_status err with
    | Some v => if truthy (Some v) then v else VStr "error"
    | None => VStr "error"
    end in
  let message := e_message err in
  let validation :=
    if String.eqb (e_name err) "ValidationError" then
      match e_errors err with
      | Some errors => Some (400, join ", " (snd <$> errors))
      | None => None
      end
    else Some (statusCode, message) in
  match validation with
  | None => Uncaught TypeError_values
  | Some (statusCode, message) =>
      let '(statusCode, message) :=
        if String.eqb (e_name err) "CastError" then
          (400, "Invalid " +:+ interpolate (e_path err) +:+ ": "
                +:+ interpolate (e_value err))
        else (statusCode, message) in
      Sent (mkResponse statusCode
              (ErrorBody status message None
                 (if opt_string_eqb (NODE_ENV env) (Some "development")
                  then Some (e_stack err) else None)))
  end.

(** ** The route table *)

Inductive Handler : Type :=
| HRoot | HList | HSearch | HStatistics | HGetOne
| HCreate | HUpdate | HDelete.

Inductive RouteMiddleware : Type :=
| Authenticate | ValidateProduct | ValidateProductUpdate.

Inductive Seg : Type :=
| Lit (s : string)
| Param.

Record Route : Type := mkRoute {
  r_method : Method;
  r_pattern : list Seg;
  r_chain : list RouteMiddleware;
  r_handler : Handler
}.

(** The routes in the order in which [server.js] registers them. *)
Definition routes : list Route :=
  [ mkRoute GET [] [] HRoot;
    mkRoute GET [Lit "api"; Lit "products"] [] HList;
    mkRoute GET [Lit "api"; Lit "products"; Lit "search"] [] HSearch;
    mkRoute GET [Lit "api"; Lit "products"; Lit "statistics"] [] HStatistics;
    mkRoute GET [Lit "api"; Lit "products"; Param] [] HGetOne;
    mkRoute POST [Lit "api"; Lit "products"] [Authenticate; ValidateProduct]
            HCreate;
    mkRoute PUT [Lit "api"; Lit "products"; Param]
            [Authenticate; ValidateProductUpdate] HUpdate;
    mkRoute DELETE [Lit "api"; Lit "products"; Param] [Authenticate] HDelete ].

Definition method_eqb (a b : Method) : bool :=
  match a, b with
  | GET, GET | POST, POST | PUT, PUT | DELETE, DELETE | PATCH, PATCH => true
  | _, _ => false
  end.

Definition lower_string (s : string) : string :=
  string_of_list_ascii (lower <$> list_ascii_of_string s).

(** Paths match segment by segment; literal segments are compared without
    regard to case (the router's default), a parameter takes any segment.
    The result is the value of [:id], when the pattern has one. *)
Fixpoint match_path (pattern : list Seg) (segs : list string)
  : option (option string) :=
  match pattern, segs with
  | [], [] => Some None
  | Lit s :: pattern', x :: segs' =>
      if String.eqb (lower_string s) (lower_string x)
      then match_path pattern' segs' else None
  | Param :: pattern', x :: segs' =>
      match match_path pattern' segs' with
      | Some _ => Some (Some x)
      | None => None
      end
  | _, _ => None
  end.

(** The first registered route that matches. *)
Fixpoint dispatch_in (rs : list Route) (m : Method) (segs : list string)
  : option (Route * option string) :=
  match rs with
  | [] => None
  | r :: rs' =>
      if method_eqb (r_method r) m then
        match match_path (r_pattern r) segs with
        | Some param => Some (r, param)
        | None => dispatch_in rs' m segs
        end
      else dispatch_in rs' m segs
  end.

Definition dispatch : Method -> list string -> option (Route * option string) :=
  dispatch_in routes.

Definition run_middleware (env : Env) (req : Request) (m : RouteMiddleware)
  : Middleware :=
  match m with
  | Authenticate => authenticate env (headers req !! "api-key")
  | ValidateProduct => validateProduct (reqBody req)
  | ValidateProductUpdate => validateProductUpdate (reqBody req)
  end.

(** The middleware of a route, in order, until one ends the request. *)
Fixpoint run_chain (env : Env) (req : Request) (chain : list RouteMiddleware)
  : Middleware :=
  match chain with
  | [] => Next
  | m :: chain' =>
      match run_middleware env req m with
      | Next => run_chain env req chain'
      | Respond r => Respond r
      end
  end.

(** A handler that only reads the store. *)
Definition reading (st : Store) (r : Async Response)
  : Async (Response * Store) :=
  let! resp := r in Resolved (resp, st).

Definition run_handler (h : Handler) (amb : Ambient) (st : Store)
    (req : Request) (param : option string) : Async (Response * Store) :=
  let key := default "" param in
  match h with
  | HRoot => Resolved (mkResponse 200 WelcomeBody, st)
  | HList => reading st (listProducts amb st (query req))
  | HSearch => reading st (searchProducts st (query req))
  | HStatistics => reading st (statistics st)
  | HGetOne => reading st (getProduct st key)
  | HCreate => createProduct amb st (reqBody req)
  | HUpdate => updateProduct amb st key (reqBody req)
  | HDelete => deleteProduct st key
  end.

(** [asyncHandler(fn)]: the response of [fn] when its promise resolves;
    when it rejects, [next] receives the error, and the next layer that
    takes an error is the error-handling middleware.  A rejected write
    leaves the store as it was. *)
Definition asyncHandler (env : Env) (st : Store)
    (fn : Async (Response * Store)) : option (Final * Store) :=
  match fn with
  | Resolved (resp, st') => Some (Sent resp, st')
  | Rejected e => Some (errorHandler env e, st)
  | DriverDefined => None
  end.

(** The application: one request against the store, [None] when the
    answer is left to the driver.  The layers before the routes pass
    every request on: [bodyParser.json()] has produced [reqBody], and
    [requestLogger] only writes a line to the console.  A request that no
    route takes reaches the 404 layer, which hands a [NotFoundError] to
    the error-handling middleware. *)
Definition app (env : Env) (amb : Ambient) (st : Store) (req : Request)
  : option (Final * Store) :=
  match dispatch (method req) (path req) with
  | Some (r, param) =>
      match run_chain env req (r_chain r) with
      | Respond resp => Some (Sent resp, st)
      | Next => asyncHandler env st (run_handler (r_handler r) amb st req param)
      end
  | None =>
      Some (errorHandler env
              (NotFoundError
                 ("Cannot find " +:+ originalUrl req +:+ " on this server")),
            st)
  end.

(** ** Definitions used to state the properties *)

(** What each field contributes to the array of [validateProduct],
    whatever the other fields hold. *)
Definition name_violation (b : ReqBody) : list string :=
  if missing_or_blank (b !! "name") then [Msg.name_required] else [].

Definition price_violation (b : ReqBody) : list string :=
  if is_nullish (b !! "price") then [Msg.price_required]
  else if not_number_or_negative (b !! "price") then [Msg.price_negative]
  else [].

Definition category_violation (b : ReqBody) : list string :=
  if missing_or_blank (b !! "category") then [Msg.category_required] else [].

Definition inStock_violation (b : ReqBody) : list string :=
  if negb (is_undefined (b !! "inStock")) && not_boolean (b !! "inStock")
  then [Msg.inStock_boolean] else [].

(** The payload [{ name: "", price: -50 }]. *)
Definition bad_payload : ReqBody :=
  <["name" := VStr ""]> (<["price" := VNum (inject_Z (-50))]> ∅).

Definition post_products (key : string) (b : ReqBody) : Request :=
  mkRequest POST ["api"; "products"] "/api/products" ∅
            (<["api-key" := key]> ∅) b.


(** A key [authenticate] lets through. *)
Definition accepted_key (env : Env) (k : string) : Prop :=
  k <> "" /\ (API_KEY env = Some k \/ k = "your-secret-api-key").

Definition unauthorized (message : string) : Response :=
  mkResponse 401 (ErrorBody (VStr "error") message None None).

(** The routes that create, update or delete. *)
Definition protected (h : Handler) : bool :=
  match h with
  | HCreate | HUpdate | HDelete => true
  | _ => false
  end.

(** A 400 whose list of messages has one that mentions "non-negative". *)
Definition rejects_non_negative (m : Middleware) : Prop :=
  exists errors,
    m = Respond (mkResponse 400
          (ErrorBody (VStr "error") "Validation failed" (Some errors) None))
    /\ exists msg, msg ∈ errors /\ includes msg "non-negative" = true.

Definition get (segs : list string) (url : string)
    (q : gmap string string) : Request :=
  mkRequest GET segs url q ∅ ∅.

Definition search_route : Route :=
  mkRoute GET [Lit "api"; Lit "products"; Lit "search"] [] HSearch.

Definition statistics_route : Route :=
  mkRoute GET [Lit "api"; Lit "products"; Lit "statistics"] [] HStatistics.

Definition id_route : Route :=
  mkRoute GET [Lit "api"; Lit "products"; Param] [] HGetOne.

(** [err.statusCode || 500] and [err.status || 'error'] *)
Definition code_or_500 (err : JsError) : Z :=
  match e_statusCode err with
  | Some c => if decide (c = 0) then 500 else c
  | None => 500
  end.

Definition status_or_error (err : JsError) : value :=
  match e_status err with
  | Some v => if truthy (Some v) then v else VStr "error"
  | None => VStr "error"
  end.

(** The [stack] key of the envelope. *)
Definition trace (env : Env) (err : JsError) : option string :=
  if decide (NODE_ENV env = Some "development") then Some (e_stack err)
  else None.

(** An error object as a library may raise it: a name, a message and a
    status code of its own. *)
Definition library_error (name message : string) (code : option Z) : JsError :=
  mkError name message code None None None None false
          (header_of name message).

(** The products a list request asks for: those of the category, when
    the [category] parameter is a non-empty string, and with a stored
    [inStock] equal to whether the [inStock] parameter is the string
    ["true"], when
    that parameter is given. *)
Definition wanted (query : gmap string string) (p : Product) : bool :=
  match query !! "category" with
  | Some c => if str_nonempty c then String.eqb (category p) c else true
  | None => true
  end
  &&
  match query !! "inStock" with
  | Some s => bool_decide (stored_inStock p = Some (String.eqb s "true"))
  | None => true
  end.

(** The page of a list request: the matching products in the order of
    their names (and, among equal names, in the order [tie] of the
    store), without the first [(P - 1) * L], cut after [L]. *)
Definition page_items (tie : Product -> nat) (st : Store)
    (query : gmap string string) (P L : Z) : list Product :=
  take (Z.to_nat L)
       (drop (Z.to_nat ((P - 1) * L))
             (sort_by tie NameAsc (List.filter (wanted query) st))).

Definition seeded : Store := seedDatabase 0 [].

(** A query string of ASCII characters other than NUL, none of which is
    special in a pattern. *)
Definition literal_char (c : ascii) : bool :=
  negb (Ascii.eqb c "."%char) && negb (Regex.is_special c)
  && (nat_of_ascii c <? 128)%nat && negb (nat_of_ascii c =? 0)%nat.

Definition literal (q : string) : bool :=
  forallb literal_char (list_ascii_of_string q).


Definition contains_cib (name q : string) : bool :=
  includes (lower_string name) (lower_string q).


Definition put (key apiKey : string) (b : ReqBody) : Request :=
  mkRequest PUT ["api"; "products"; key] ("/api/products/" +:+ key) ∅
            (<["api-key" := apiKey]> ∅) b.

Definition updated (p : Product) : Response :=
  mkResponse 200 (ProductBody (Some "Product updated successfully") p).

Definition delete_ (key apiKey : string) : Request :=
  mkRequest DELETE ["api"; "products"; key] ("/api/products/" +:+ key) ∅
            (<["api-key" := apiKey]> ∅) ∅.

(** A document whose stored [inStock] is [b], and a document that has
    none. *)
Definition stored_is (b : bool) (p : Product) : bool :=
  match stored_inStock p with
  | Some x => Bool.eqb x b
  | None => false
  end.

Definition lacks_inStock (p : Product) : bool :=
  match stored_inStock p with
  | Some _ => false
  | None => true
  end.

(** What an update document names: a path is named at top level, under
    [$set] or under [$unset]. *)
Definition names (b : ReqBody) (k : string) : Prop :=
  is_Some (b !! k)
  \/ (exists fs, b !! "$set" = Some (VObject fs) /\ k ∈ fst <$> fs)
  \/ (exists fs, b !! "$unset" = Some (VObject fs) /\ k ∈ fst <$> fs).

(** The value an update document gives a path, at top level or under
    [$set]. *)
Definition sets_to (b : ReqBody) (k : string) (v : value) : Prop :=
  b !! k = Some v
  \/ (exists fs, b !! "$set" = Some (VObject fs) /\ (k, v) ∈ fs).

(** [{ $unset: { inStock: "" } }] *)
Definition unset_inStock : ReqBody :=
  <["$unset" := VObject [("inStock", VStr "")]]> ∅.

(** ** Definitions used to state further properties *)

(** The ids of a collection, in its order. *)
Definition ids (st : Store) : list string := id <$> st.

Definition deleted (p : Product) : Response :=
  mkResponse 200 (ProductBody (Some "Product deleted successfully") p).

Definition created (p : Product) : Response :=
  mkResponse 201 (ProductBody (Some "Product created successfully") p).

Definition fetched (p : Product) : Response :=
  mkResponse 200 (ProductBody None p).

(** The envelope of a [NotFoundError] with message [m]. *)
Definition not_found (env : Env) (m : string) : Final :=
  Sent (mkResponse 404
          (ErrorBody (VStr "error") m None
             (if decide (NODE_ENV env = Some "development")
              then Some (stack_of m) else None))).

(** The [data] of a list response. *)
Definition items_of (r : Async Response) : list Product :=
  match r with
  | Resolved (mkResponse _ (ListBody _ _ data)) => data
  | _ => []
  end.

(** The [data] of a search response. *)
Definition matches_of (r : Async Response) : list Product :=
  match r with
  | Resolved (mkResponse _ (SearchBody _ _ data)) => data
  | _ => []
  end.

(** [inStock] as the schema defaults it. *)
Definition inStock_or_default (b : ReqBody) : bool :=
  match b !! "inStock" with
  | Some (VBool x) => x
  | _ => true
  end.

(** A payload that says what [validateProduct] asks for. *)
Definition well_formed (b : ReqBody) : Prop :=
  (exists n, b !! "name" = Some (VStr n) /\ blank n = false)
  /\ (exists q, b !! "price" = Some (VNum q) /\ (0 <= q)%Q)
  /\ (exists c, b !! "category" = Some (VStr c) /\ blank c = false)
  /\ (b !! "inStock" = None \/ exists x, b !! "inStock" = Some (VBool x)).

(** A payload in which every field that is present is as
    [validateProductUpdate] asks. *)
Definition well_formed_update (b : ReqBody) : Prop :=
  (b !! "name" = None \/ exists n, b !! "name" = Some (VStr n) /\ blank n = false)
  /\ (b !! "price" = None \/ exists q, b !! "price" = Some (VNum q) /\ (0 <= q)%Q)
  /\ (b !! "category" = None
      \/ exists c, b !! "category" = Some (VStr c) /\ blank c = false)
  /\ (b !! "inStock" = None \/ exists x, b !! "inStock" = Some (VBool x)).

Definition sum_counts (l : list CategoryStat) : Z :=
  foldr (fun c acc => cs_count c + acc) 0 l.

(** The collections the server can be in: the one the seeding leaves in
    an empty database, and those that requests lead to from there. *)
Inductive reachable (env : Env) : Store -> Prop :=
| reach_seed (now : Z) : reachable env (seedDatabase now [])
| reach_step (amb : Ambient) (st : Store) (req : Request) (f : Final)
    (st' : Store) :
    reachable env st -> app env amb st req = Some (f, st') ->
    reachable env st'.

(** The message of the 404 layer. *)
Definition cannot_find (req : Request) : string :=
  "Cannot find " +:+ originalUrl req +:+ " on this server".

(** The number of products of a category. *)
Definition in_category (st : Store) (c : string) : Z :=
  Z.of_nat (length (List.filter (fun p => String.eqb (category p) c) st)).
(** * Properties *)

(** ** Strings *)

Lemma prefixb_spec (p l : list ascii) :
  prefixb p l = true <-> exists suf, l = p ++ suf.
Proof.
  revert l. induction p as [|a p IH]; intros l; simpl.
  - split; [intros _; by exists l | done].
  - destruct l as [|b l].
    + split; [done | intros [suf H]; discriminate H].
    + rewrite andb_true_iff, Ascii.eqb_eq, IH. split.
      * intros [-> [suf ->]]. by exists suf.
      * intros [suf H]. injection H as -> ->. eauto.
Qed.

Lemma infixb_spec (p l : list ascii) :
  infixb p l = true <-> exists pre suf, l = pre ++ p ++ suf.
Proof.
  induction l as [|b l IH].
  - simpl. rewrite orb_false_r, prefixb_spec. split.
    + intros [suf H]. by exists [], suf.
    + intros [pre [suf H]]. symmetry in H.
      apply app_eq_nil in H as [-> H].
      apply app_eq_nil in H as [-> ->]. by exists [].
  - change (infixb p (b :: l)) with (prefixb p (b :: l) || infixb p l).
    rewrite orb_true_iff, prefixb_spec, IH. split.
    + intros [[suf H] | [pre [suf H]]].
      * by exists [], suf.
      * exists (b :: pre), suf. by rewrite H.
    + intros [[|c pre] [suf H]].
      * left. by exists suf.
      * right. injection H as -> ->. eauto.
Qed.

(** ** Authentication *)

Lemma authenticate_documented_key (env : Env) :
  authenticate env (Some "your-secret-api-key") = Next.
Proof.
  unfold authenticate. cbn. by rewrite andb_false_r.
Qed.

Lemma str_nonempty_spec (s : string) : str_nonempty s = true <-> s <> "".
Proof. destruct s; simpl; split; congruence. Qed.

Lemma opt_string_eqb_spec (a b : option string) :
  opt_string_eqb a b = true <-> a = b.
Proof.
  destruct a as [x|], b as [y|]; simpl; try (split; congruence).
  rewrite String.eqb_eq. split; congruence.
Qed.

Lemma authenticate_missing (env : Env) (apiKey : option string) :
  apiKey = None \/ apiKey = Some "" ->
  authenticate env apiKey =
    Respond (unauthorized
      "API key is required. Please provide api-key in headers.").
Proof. by intros [-> | ->]. Qed.

Lemma authenticate_present (env : Env) (k : string) :
  k <> "" ->
  authenticate env (Some k) =
    if decide (API_KEY env = Some k \/ k = "your-secret-api-key") then Next
    else Respond (unauthorized "Invalid API key").
Proof.
  intros Hk. unfold authenticate. cbn [fmap option_fmap option_map truthy].
  apply str_nonempty_spec in Hk. rewrite Hk. cbn [negb].
  case_decide as H.
  - destruct H as [H | H].
    + rewrite (proj2 (opt_string_eqb_spec (Some k) (API_KEY env))) by done.
      done.
    + rewrite (proj2 (opt_string_eqb_spec (Some k) (Some "your-secret-api-key")))
        by congruence.
      by rewrite andb_false_r.
  - destruct (opt_string_eqb (Some k) (API_KEY env)) eqn:E1.
    { apply opt_string_eqb_spec in E1. destruct H. by left. }
    destruct (opt_string_eqb (Some k) (Some "your-secret-api-key")) eqn:E2.
    { apply opt_string_eqb_spec in E2. destruct H. right. congruence. }
    done.
Qed.

(** ** Dispatch of the registered routes *)

Lemma dispatch_in_elem rs m segs r param :
  dispatch_in rs m segs = Some (r, param) -> r ∈ rs.
Proof.
  induction rs as [|x rs IH]; simpl; [done|].
  destruct (method_eqb (r_method x) m).
  - destruct (match_path (r_pattern x) segs).
    + intros [= <- _]. left.
    + intros H. right. auto.
  - intros H. right. auto.
Qed.

Lemma protected_chain (r : Route) :
  r ∈ routes -> protected (r_handler r) = true ->
  exists chain, r_chain r = Authenticate :: chain.
Proof.
  unfold routes. rewrite !elem_of_cons, elem_of_nil.
  intros H Hp.
  repeat (destruct H as [-> | H]; [cbn in Hp |- *; first [discriminate | eauto] |]).
  done.
Qed.

Lemma dispatch_create :
  dispatch POST ["api"; "products"] =
    Some (mkRoute POST [Lit "api"; Lit "products"]
            [Authenticate; ValidateProduct] HCreate, None).
Proof. vm_compute. reflexivity. Qed.

Lemma app_post_products env amb st key b :
  app env amb st (post_products key b) =
    match authenticate env (Some key) with
    | Respond r => Some (Sent r, st)
    | Next =>
        match validateProduct b with
        | Respond r => Some (Sent r, st)
        | Next => asyncHandler env st (createProduct amb st b)
        end
    end.
Proof.
  unfold app.
  change (dispatch _ _) with (dispatch POST ["api"; "products"]).
  rewrite dispatch_create.
  cbn [r_chain r_handler run_chain run_middleware run_handler post_products
       headers reqBody].
  rewrite lookup_insert_eq.
  destruct (authenticate env (Some key)); [|done].
  by destruct (validateProduct b).
Qed.

(** ** Validation *)

Lemma validation_failed_spec (errors : list string) :
  validation_failed errors =
    if decide (errors = []) then Next
    else Respond (mkResponse 400
           (ErrorBody (VStr "error") "Validation failed" (Some errors) None)).
Proof. by destruct errors. Qed.

Lemma validateProduct_errors_fields (b : ReqBody) :
  validateProduct_errors b =
    name_violation b ++ price_violation b ++ category_violation b
      ++ inStock_violation b.
Proof.
  unfold validateProduct_errors, name_violation, price_violation,
    category_violation, inStock_violation, push_if.
  destruct (missing_or_blank (b !! "name")),
    (is_nullish (b !! "price")),
    (not_number_or_negative (b !! "price")),
    (missing_or_blank (b !! "category")),
    (negb (is_undefined (b !! "inStock")) && not_boolean (b !! "inStock"));
    reflexivity.
Qed.

(** C4. [validateProduct] checks every field whatever the outcome of the
    checks before it: its array of messages is the concatenation of what
    the name, the price, the category and [inStock] each contribute, and
    the request ends with 400 and that whole array exactly when the array
    is not empty.  The payload [{ name: "", price: -50 }] gives the three
    messages for name, price and category, in this order, also through
    the whole application. *)
Theorem C4_validateProduct_accumulates :
  (forall b : ReqBody,
     validateProduct_errors b =
       name_violation b ++ price_violation b ++ category_violation b
         ++ inStock_violation b
     /\ validateProduct b =
          if decide (validateProduct_errors b = []) then Next
          else Respond (mkResponse 400
                 (ErrorBody (VStr "error") "Validation failed"
                    (Some (validateProduct_errors b)) None)))
  /\ validateProduct bad_payload =
       Respond (mkResponse 400
         (ErrorBody (VStr "error") "Validation failed"
            (Some [ "Name is required and must be a non-empty string";
                    "Price must be a non-negative number";
                    "Category is required and must be a non-empty string" ])
            None))
  /\ (forall env amb st,
        app env amb st (post_products "your-secret-api-key" bad_payload) =
          Some (Sent (mkResponse 400
            (ErrorBody (VStr "error") "Validation failed"
               (Some [ Msg.name_required; Msg.price_negative;
                       Msg.category_required ])
               None)), st)).
Proof.
  split; [|split].
  - intros b. split.
    + apply validateProduct_errors_fields.
    + apply validation_failed_spec.
  - reflexivity.
  - intros env amb st.
    by rewrite app_post_products, authenticate_documented_key.
Qed.

Lemma Qltb_spec (x y : Q) : Qltb x y = true <-> (x < y)%Q.
Proof.
  unfold Qltb. rewrite negb_true_iff, <- not_true_iff_false, Qle_bool_iff.
  split; [apply Qnot_le_lt | apply Qlt_not_le].
Qed.

Lemma validation_failed_elem (errors : list string) (m : string) :
  m ∈ errors ->
  validation_failed errors =
    Respond (mkResponse 400
      (ErrorBody (VStr "error") "Validation failed" (Some errors) None)).
Proof. destruct errors; [by intros ?%elem_of_nil | done]. Qed.

Lemma push_if_elem (c : bool) (m x : string) (errors : list string) :
  x ∈ push_if c m errors <-> x ∈ errors \/ (c = true /\ x = m).
Proof.
  unfold push_if. destruct c.
  - rewrite elem_of_app, list_elem_of_singleton. split.
    + intros [H | H]; [by left | by right].
    + intros [H | [_ H]]; [by left | by right].
  - split; [by left | intros [H | [H _]]; [done | discriminate H]].
Qed.

(** C5. A create payload and an update payload whose [price] is a number
    below 0 are both answered with 400 and a list of messages, one of
    which mentions "non-negative". *)
Theorem C5_negative_price_rejected (b : ReqBody) (p : Q) :
  b !! "price" = Some (VNum p) -> (p < 0)%Q ->
  rejects_non_negative (validateProduct b)
  /\ rejects_non_negative (validateProductUpdate b).
Proof.
  intros Hb Hp. apply Qltb_spec in Hp.
  assert (Hin : Msg.price_negative ∈ validateProduct_errors b).
  { rewrite validateProduct_errors_fields. unfold price_violation.
    rewrite Hb. cbn [is_nullish not_number_or_negative]. rewrite Hp.
    rewrite !elem_of_app. right. left. left. }
  assert (Hin' : Msg.price_negative ∈ validateProductUpdate_errors b).
  { unfold validateProductUpdate_errors. rewrite Hb.
    cbn [is_undefined not_number_or_negative negb andb]. rewrite Hp.
    rewrite !push_if_elem. left. left. right. done. }
  split.
  - exists (validateProduct_errors b). split.
    + by apply validation_failed_elem with Msg.price_negative.
    + exists Msg.price_negative. split; [done | by vm_compute].
  - exists (validateProductUpdate_errors b). split.
    + by apply validation_failed_elem with Msg.price_negative.
    + exists Msg.price_negative. split; [done | by vm_compute].
Qed.

Lemma C5_negative_price_rejected_witness :
  rejects_non_negative (validateProduct bad_payload)
  /\ rejects_non_negative (validateProductUpdate bad_payload).
Proof.
  apply (C5_negative_price_rejected bad_payload (inject_Z (-50))).
  - reflexivity.
  - reflexivity.
Defined.

(** ** Authentication on the protected routes *)

(** C1 (as the code has it).  [authenticate] calls [next()] exactly when
    the [api-key] header is a non-empty string equal to the configured
    [API_KEY] or to the documented key [your-secret-api-key].  A missing or
    empty header is answered with 401 and the message that the key is
    required; any other value with 401 and the message that the key is
    invalid.  On every route that creates, updates or deletes, this answer
    ends the request and leaves the store as it was. *)
Theorem C1_authenticate_accepts (env : Env) (apiKey : option string) :
  (authenticate env apiKey = Next <->
     exists k, apiKey = Some k /\ accepted_key env k)
  /\ (apiKey = None \/ apiKey = Some "" ->
      authenticate env apiKey =
        Respond (unauthorized
          "API key is required. Please provide api-key in headers."))
  /\ (forall k, apiKey = Some k -> k <> "" -> ~ accepted_key env k ->
      authenticate env apiKey = Respond (unauthorized "Invalid API key"))
  /\ (forall amb st req r param resp,
      dispatch (method req) (path req) = Some (r, param) ->
      protected (r_handler r) = true ->
      headers req !! "api-key" = apiKey ->
      authenticate env apiKey = Respond resp ->
      app env amb st req = Some (Sent resp, st)).
Proof.
  split; [|split; [|split]].
  - split.
    + intros H. destruct apiKey as [k|]; [|discriminate H].
      destruct (decide (k = "")) as [-> | Hk]; [discriminate H|].
      rewrite authenticate_present in H by done.
      case_decide; [|discriminate H]. exists k. by repeat split.
    + intros [k [-> [Hk Hacc]]]. rewrite authenticate_present by done.
      by case_decide.
  - apply authenticate_missing.
  - intros k -> Hk Hacc. rewrite authenticate_present by done.
    case_decide; [|done]. exfalso. apply Hacc. by split.
  - intros amb st req r param resp Hd Hp Hh Ha. unfold app. rewrite Hd.
    destruct (protected_chain r) as [chain Hc]; [|done|].
    { unfold dispatch in Hd. by eapply dispatch_in_elem. }
    rewrite Hc. cbn [run_chain run_middleware]. by rewrite Hh, Ha.
Qed.

(** The documented key opens the protected routes whatever [API_KEY] is
    configured. *)
Lemma C1_documented_key_accepted :
  let env := mkEnv (Some "sk_prod_a1b2c3d4") (Some "production") in
  authenticate env (Some "your-secret-api-key") = Next
  /\ API_KEY env <> Some "your-secret-api-key".
Proof. split; [reflexivity | discriminate]. Qed.

(** ** Statistics *)

Lemma length_filter_split {A : Type} (f : A -> bool) (l : list A) :
  (length (List.filter f l) + length (List.filter (fun x => negb (f x)) l)
   = length l)%nat.
Proof.
  induction l as [|x l IH]; simpl; [done|].
  destruct (f x); simpl; lia.
Qed.

Lemma filter_ext_bool {A : Type} (f g : A -> bool) (l : list A) :
  (forall x, f x = g x) -> List.filter f l = List.filter g l.
Proof.
  intros H. induction l as [|x l IH]; simpl; [done|].
  by rewrite H, IH.
Qed.

Lemma countDocuments_all (st : Store) :
  countDocuments st [] = Resolved (Z.of_nat (length st)).
Proof.
  unfold countDocuments. cbn. f_equal. f_equal. f_equal.
  induction st as [|p st IH]; simpl; [done | by rewrite IH].
Qed.

Lemma countDocuments_inStock (st : Store) (b : bool) :
  countDocuments st [CInStock b] =
    Resolved (Z.of_nat (length (List.filter (stored_is b) st))).
Proof.
  unfold countDocuments. cbn. f_equal. f_equal. f_equal.
  apply filter_ext_bool. intros p. apply andb_true_r.
Qed.

Lemma length_filter_three (st : Store) :
  (length (List.filter (stored_is true) st)
   + length (List.filter (stored_is false) st)
   + length (List.filter lacks_inStock st) = length st)%nat.
Proof.
  induction st as [|p st IH]; [done|].
  cbn [List.filter]. unfold stored_is, lacks_inStock in *.
  destruct (stored_inStock p) as [[|]|]; cbn; lia.
Qed.

(** C8 (as the code has it).  The statistics handler always answers.
    The count it reports as in stock is the number of products whose
    stored [inStock] is [true], the count it reports as out of stock the
    number of those whose stored [inStock] is [false]; together with the
    number of products that have no stored [inStock], they add up to the
    total.  So the two reported counts add up to the total exactly when
    every product of the collection has a stored [inStock]. *)
Theorem C8_statistics_counts_add_up (st : Store) :
  exists s,
    statistics st = Resolved (mkResponse 200 (StatsBody s))
    /\ st_totalProducts s = Z.of_nat (length st)
    /\ st_inStock s = Z.of_nat (length (List.filter (stored_is true) st))
    /\ st_outOfStock s = Z.of_nat (length (List.filter (stored_is false) st))
    /\ st_inStock s + st_outOfStock s
         + Z.of_nat (length (List.filter lacks_inStock st))
       = st_totalProducts s
    /\ (st_inStock s + st_outOfStock s = st_totalProducts s <->
        Forall (fun p => is_Some (stored_inStock p)) st).
Proof.
  unfold statistics.
  rewrite countDocuments_all, !countDocuments_inStock. cbn [await].
  eexists. split; [reflexivity|]. cbn.
  pose proof (length_filter_three st) as H.
  split; [done|]. split; [done|]. split; [done|]. split; [lia|].
  assert (Hl : length (List.filter lacks_inStock st) = 0%nat <->
               Forall (fun p => is_Some (stored_inStock p)) st).
  { clear. induction st as [|p st IH]; [by split|].
    cbn [List.filter]. rewrite Forall_cons, <- IH.
    unfold lacks_inStock. destruct (stored_inStock p); cbn.
    - split; [intros ?; split; [by eexists | done] | by intros [_ ?]].
    - split; [done | by intros [[? ?] _]]. }
  rewrite <- Hl. lia.
Qed.

(** Against C8 as stated: [inStock] is not a required path of the
    schema, and the payload [{ $unset: { inStock: "" } }] passes the
    validation of an update.  After this update of product 1 the
    collection has five products, of which the statistics count three
    as in stock and one as out of stock. *)
Lemma C8_unset_inStock_breaks_sum :
  let p' := mkDocument "1" "Laptop" (inject_Z 1200) "electronics" None 0 5 in
  let st' := p' :: drop 1 seeded in
  validateProductUpdate unset_inStock = Next
  /\ app (mkEnv (Some "k") None) (mkAmbient 5 "u") seeded
         (put "1" "k" unset_inStock) =
       Some (Sent (updated p'), st')
  /\ match statistics st' with
     | Resolved (mkResponse 200 (StatsBody s)) =>
         st_totalProducts s = 5 /\ st_inStock s = 3 /\ st_outOfStock s = 1
         /\ st_inStock s + st_outOfStock s <> st_totalProducts s
     | _ => False
     end.
Proof.
  repeat split; vm_compute; first [reflexivity | discriminate].
Qed.

(** ** Route order *)

Lemma dispatch_search :
  dispatch GET ["api"; "products"; "search"] = Some (search_route, None).
Proof. vm_compute. reflexivity. Qed.

Lemma dispatch_statistics :
  dispatch GET ["api"; "products"; "statistics"] =
    Some (statistics_route, None).
Proof. vm_compute. reflexivity. Qed.

Lemma app_search env amb st req :
  method req = GET -> path req = ["api"; "products"; "search"] ->
  app env amb st req = asyncHandler env st (reading st (searchProducts st (query req))).
Proof.
  intros Hm Hp. unfold app. rewrite Hm, Hp, dispatch_search.
  reflexivity.
Qed.

Lemma app_statistics env amb st req :
  method req = GET -> path req = ["api"; "products"; "statistics"] ->
  app env amb st req = asyncHandler env st (reading st (statistics st)).
Proof.
  intros Hm Hp. unfold app. rewrite Hm, Hp, dispatch_statistics.
  reflexivity.
Qed.

(** C10. [GET /api/products/search] and [GET /api/products/statistics]
    are dispatched to the search and the statistics route, which are
    registered before [/api/products/:id]; the answer to such a request
    is the one of the search, respectively statistics, handler, and the
    fetch-one handler does not run.  Were the [:id] route registered
    first, it would take both paths. *)
Theorem C10_search_and_statistics_routes :
  dispatch GET ["api"; "products"; "search"] = Some (search_route, None)
  /\ dispatch GET ["api"; "products"; "statistics"] =
       Some (statistics_route, None)
  /\ (forall env amb st req,
        method req = GET -> path req = ["api"; "products"; "search"] ->
        app env amb st req = asyncHandler env st (reading st (searchProducts st (query req))))
  /\ (forall env amb st req,
        method req = GET -> path req = ["api"; "products"; "statistics"] ->
        app env amb st req = asyncHandler env st (reading st (statistics st)))
  /\ dispatch GET ["api"; "products"; "42"] = Some (id_route, Some "42")
  /\ dispatch_in (id_route :: routes) GET ["api"; "products"; "search"] =
       Some (id_route, Some "search")
  /\ dispatch_in (id_route :: routes) GET ["api"; "products"; "statistics"] =
       Some (id_route, Some "statistics").
Proof.
  split; [apply dispatch_search|].
  split; [apply dispatch_statistics|].
  split; [apply app_search|].
  split; [apply app_statistics|].
  repeat split; vm_compute; reflexivity.
Qed.

(** ** The error-handling middleware *)

Lemma errorHandler_plain (env : Env) (err : JsError) :
  e_name err <> "ValidationError" -> e_name err <> "CastError" ->
  errorHandler env err =
    Sent (mkResponse (code_or_500 err)
            (ErrorBody (status_or_error err) (e_message err) None
               (trace env err))).
Proof.
  intros Hv Hc. unfold errorHandler.
  apply String.eqb_neq in Hv, Hc. rewrite Hv, Hc.
  unfold code_or_500, status_or_error, trace.
  f_equal. f_equal.
  - destruct (e_statusCode err) as [c|]; [|done].
    case_decide as H; [by subst|].
    by apply Z.eqb_neq in H as ->.
  - f_equal. case_decide as H.
    + by rewrite H.
    + destruct (opt_string_eqb (NODE_ENV env) (Some "development")) eqn:E; [|done].
      by apply opt_string_eqb_spec in E.
Qed.

Lemma errorHandler_cast (env : Env) (err : JsError) :
  e_name err = "CastError" ->
  errorHandler env err =
    Sent (mkResponse 400
            (ErrorBody (status_or_error err)
               ("Invalid " +:+ interpolate (e_path err) +:+ ": "
                +:+ interpolate (e_value err))
               None (trace env err))).
Proof.
  intros Hc. unfold errorHandler. rewrite Hc. cbn [String.eqb Ascii.eqb].
  cbn. unfold status_or_error, trace.
  f_equal. f_equal. f_equal. case_decide as H.
  - by rewrite H.
  - destruct (opt_string_eqb (NODE_ENV env) (Some "development")) eqn:E; [|done].
    by apply opt_string_eqb_spec in E.
Qed.

Lemma errorHandler_validation (env : Env) (err : JsError) errors :
  e_name err = "ValidationError" -> e_errors err = Some errors ->
  errorHandler env err =
    Sent (mkResponse 400
            (ErrorBody (status_or_error err) (join ", " (snd <$> errors)) None
               (trace env err))).
Proof.
  intros Hv He. unfold errorHandler. rewrite Hv, He.
  cbn. unfold status_or_error, trace.
  f_equal. f_equal. f_equal. case_decide as H.
  - by rewrite H.
  - destruct (opt_string_eqb (NODE_ENV env) (Some "development")) eqn:E; [|done].
    by apply opt_string_eqb_spec in E.
Qed.

(** C9 (as the code has it).  An error that reaches the error-handling
    middleware, other than one named [ValidationError] that carries no
    [errors] map, is answered with the envelope [{ status, message }],
    where [status] is [err.status] or ["error"].  Its status code is 400
    when it is named [ValidationError] or [CastError], and otherwise
    [err.statusCode], or 500 when the error has none; its message is then
    the one of the error.  The trace is part of the envelope exactly when
    [NODE_ENV] is [development]. *)
Theorem C9_errorHandler_envelope (env : Env) (err : JsError) :
  e_name err <> "ValidationError" \/ is_Some (e_errors err) ->
  exists code message,
    errorHandler env err =
      Sent (mkResponse code
              (ErrorBody (status_or_error err) message None (trace env err)))
    /\ (e_status err = None -> status_or_error err = VStr "error")
    /\ (e_name err = "ValidationError" \/ e_name err = "CastError" ->
        code = 400)
    /\ (e_name err <> "ValidationError" -> e_name err <> "CastError" ->
        code = code_or_500 err /\ message = e_message err)
    /\ (e_name err <> "ValidationError" -> e_name err <> "CastError" ->
        e_statusCode err = None -> code = 500)
    /\ (is_Some (trace env err) <-> NODE_ENV env = Some "development").
Proof.
  intros Hok.
  assert (Htrace : is_Some (trace env err) <-> NODE_ENV env = Some "development").
  { unfold trace. case_decide as H.
    - split; [done | intros _; by eexists].
    - split; [by intros [? ?] | done]. }
  assert (Hstatus : e_status err = None -> status_or_error err = VStr "error").
  { unfold status_or_error. by intros ->. }
  destruct (decide (e_name err = "CastError")) as [Hc | Hc].
  { destruct (decide (e_name err = "ValidationError")) as [Hv | Hv];
      [congruence|].
    eexists _, _. split; [by apply errorHandler_cast|].
    split; [done|]. split; [done|].
    split; [intros; congruence|]. split; [intros; congruence | done]. }
  destruct (decide (e_name err = "ValidationError")) as [Hv | Hv].
  - destruct Hok as [Hok | [errors He]]; [done|].
    eexists _, _. split; [by eapply errorHandler_validation|].
    split; [done|]. split; [done|].
    split; [intros; congruence|]. split; [intros; congruence | done].
  - eexists _, _. split; [by apply errorHandler_plain|].
    split; [done|]. split; [by intros [? | ?]|].
    split; [done|]. split; [|done].
    intros _ _ Hnone. unfold code_or_500. by rewrite Hnone.
Qed.

Lemma C9_errorHandler_envelope_witness :
  exists code message,
    errorHandler (mkEnv None (Some "development"))
                 (NotFoundError "Product with id 9 not found") =
      Sent (mkResponse code
              (ErrorBody (VStr "error") message None
                 (Some "Error: Product with id 9 not found")))
    /\ code = 404 /\ message = "Product with id 9 not found".
Proof.
  destruct (C9_errorHandler_envelope (mkEnv None (Some "development"))
              (NotFoundError "Product with id 9 not found"))
    as [code [message [H [_ [_ [H1 _]]]]]].
  - left. vm_compute. discriminate.
  - exists code, message. destruct H1 as [-> ->]; [by vm_compute..|].
    split; [exact H | by split].
Defined.

(** Against C9 as stated: the error the search handler throws for a
    missing [q] makes the error-handling middleware itself throw, so no
    envelope is rendered; an error that brings a status code of its own
    keeps it; and outside production, with [NODE_ENV] unset or [test],
    the envelope carries no trace. *)
Lemma C9_not_every_error_enveloped :
  (forall env amb st,
     app env amb st (get ["api"; "products"; "search"] "/api/products/search" ∅)
       = Some (Uncaught TypeError_values, st))
  /\ errorHandler (mkEnv None (Some "production"))
       (library_error "PayloadTooLargeError" "request entity too large"
                      (Some 413)) =
       Sent (mkResponse 413
               (ErrorBody (VStr "error") "request entity too large" None None))
  /\ errorHandler (mkEnv None None) (NotFoundError "gone") =
       Sent (mkResponse 404 (ErrorBody (VStr "error") "gone" None None))
  /\ errorHandler (mkEnv None (Some "test")) (NotFoundError "gone") =
       Sent (mkResponse 404 (ErrorBody (VStr "error") "gone" None None)).
Proof.
  split; [|by vm_compute].
  intros env amb st. by rewrite app_search.
Qed.

(** ** The order of names *)

Lemma ascii_compare_lt_trans (a b c : ascii) :
  Ascii.compare a b = Lt -> Ascii.compare b c = Lt -> Ascii.compare a c = Lt.
Proof.
  unfold Ascii.compare. rewrite !N.compare_lt_iff. lia.
Qed.

Lemma string_compare_lt_trans (s1 s2 s3 : string) :
  String.compare s1 s2 = Lt -> String.compare s2 s3 = Lt ->
  String.compare s1 s3 = Lt.
Proof.
  revert s2 s3. induction s1 as [|a s1 IH]; intros [|b s2] [|c s3];
    simpl; try done.
  destruct (Ascii.compare a b) eqn:Eab; try done.
  - apply Ascii.compare_eq_iff in Eab as ->.
    destruct (Ascii.compare b c); try done. apply IH.
  - intros _. destruct (Ascii.compare b c) eqn:Ebc; try done.
    + apply Ascii.compare_eq_iff in Ebc as <-. by rewrite Eab.
    + by rewrite (ascii_compare_lt_trans a b c).
Qed.

Lemma string_leb_trans (s1 s2 s3 : string) :
  String.leb s1 s2 = true -> String.leb s2 s3 = true ->
  String.leb s1 s3 = true.
Proof.
  unfold String.leb.
  destruct (String.compare s1 s2) eqn:E12; try done; intros _.
  - by apply String.compare_eq_iff in E12 as ->.
  - destruct (String.compare s2 s3) eqn:E23; try done; intros _.
    + apply String.compare_eq_iff in E23 as <-. by rewrite E12.
    + by rewrite (string_compare_lt_trans s1 s2 s3).
Qed.

#[local] Instance name_le_total : Total name_le.
Proof.
  intros p q. unfold name_le.
  destruct (String.leb_total (name p) (name q)) as [H | H];
    rewrite H; [by left | by right].
Qed.

#[local] Instance name_le_trans : Transitive name_le.
Proof.
  intros p q r. unfold name_le. rewrite !Is_true_true.
  apply string_leb_trans.
Qed.

Lemma string_ltb_compare (a b : string) :
  String.ltb a b = true <-> String.compare a b = Lt.
Proof. unfold String.ltb. by destruct (String.compare a b). Qed.

Lemma string_compare_refl (a : string) : String.compare a a = Eq.
Proof.
  induction a as [|c a IH]; [done|]. cbn.
  unfold Ascii.compare. by rewrite N.compare_refl.
Qed.

Lemma tie_leb_spec (tie : Product -> nat) (p q : Product) :
  tie_leb tie p q = true <->
  String.compare (name p) (name q) = Lt
  \/ (name p = name q /\ (tie p <= tie q)%nat).
Proof.
  unfold tie_leb.
  rewrite orb_true_iff, andb_true_iff, string_ltb_compare, String.eqb_eq,
    Nat.leb_le. done.
Qed.

#[local] Instance tie_le_total (tie : Product -> nat) : Total (tie_le tie).
Proof.
  intros p q. unfold tie_le. rewrite !Is_true_true, !tie_leb_spec.
  destruct (String.compare (name p) (name q)) eqn:E.
  - apply String.compare_eq_iff in E.
    destruct (Nat.le_ge_cases (tie p) (tie q)); [left | right]; right; done.
  - by left; left.
  - right. left. rewrite String.compare_antisym, E. done.
Qed.

#[local] Instance tie_le_trans (tie : Product -> nat) : Transitive (tie_le tie).
Proof.
  intros p q r. unfold tie_le. rewrite !Is_true_true, !tie_leb_spec.
  intros [H1 | [H1 H1']] [H2 | [H2 H2']].
  - left. by eapply string_compare_lt_trans.
  - left. by rewrite <- H2.
  - left. by rewrite H1.
  - right. split; [congruence | lia].
Qed.

Lemma tie_le_name_le (tie : Product -> nat) (p q : Product) :
  tie_le tie p q -> name_le p q.
Proof.
  unfold tie_le, name_le. rewrite !Is_true_true, tie_leb_spec.
  unfold String.leb. intros [-> | [-> _]]; [done|].
  by rewrite string_compare_refl.
Qed.

Lemma StronglySorted_weaken {A} (R R' : relation A) (l : list A) :
  (forall x y, R x y -> R' x y) ->
  StronglySorted R l -> StronglySorted R' l.
Proof.
  intros HR. induction 1 as [|x l _ IH Hall]; constructor; [done|].
  eapply Forall_impl; [exact Hall|]. intros y. apply HR.
Qed.

Lemma sort_by_name_sorted (tie : Product -> nat) (l : list Product) :
  StronglySorted name_le (sort_by tie NameAsc l).
Proof.
  apply (StronglySorted_weaken (tie_le tie)); [apply tie_le_name_le|].
  apply StronglySorted_merge_sort; apply _.
Qed.

Lemma sort_by_name_perm (tie : Product -> nat) (l : list Product) :
  sort_by tie NameAsc l ≡ₚ l.
Proof. apply merge_sort_Permutation. Qed.

Lemma StronglySorted_take_drop {A} (R : relation A) (l : list A) (n m : nat) :
  StronglySorted R l -> StronglySorted R (take n (drop m l)).
Proof.
  intros H.
  assert (Hd : StronglySorted R (drop m l)).
  { rewrite <- (take_drop m l) in H. by apply StronglySorted_app_1_r in H. }
  rewrite <- (take_drop n (drop m l)) in Hd.
  by apply StronglySorted_app_1_l in Hd.
Qed.

(** ** Listing *)

Lemma ceil_div_bounds (total L : Z) :
  1 <= L ->
  exists pages, Num.ceil_div total (Int L) = Int pages
    /\ (pages - 1) * L < total <= pages * L.
Proof.
  intros HL. exists (- (- total / L)). split.
  - unfold Num.ceil_div. destruct L; [lia | done | lia].
  - pose proof (Z.div_mod (- total) L ltac:(lia)) as Hdm.
    pose proof (Z.mod_pos_bound (- total) L ltac:(lia)) as Hmod.
    nia.
Qed.

Lemma list_filter_test (query : gmap string string) :
  let filter :=
    match query !! "category" with
    | Some (String a c) => [] ++ [CCategory (String a c)]
    | _ => []
    end in
  let filter :=
    match query !! "inStock" with
    | Some s => filter ++ [CInStock (String.eqb s "true")]
    | None => filter
    end in
  exists t, filter_test filter = Some t /\ forall p, t p = wanted query p.
Proof.
  assert (Hs : forall p b,
    match stored_inStock p with
    | Some x => Bool.eqb x b
    | None => false
    end = bool_decide (stored_inStock p = Some b)).
  { intros p b. destruct (stored_inStock p) as [x|]; [|done].
    destruct x, b; done. }
  unfold wanted.
  destruct (query !! "category") as [[|a c]|], (query !! "inStock") as [s|];
    cbn; eexists; (split; [reflexivity|]); intros p; cbn;
    rewrite ?andb_true_r, ?Hs; done.
Qed.

Lemma safe_spec (z : Z) : Num.safe z = true <-> - 2 ^ 53 <= z <= 2 ^ 53.
Proof. unfold Num.safe. rewrite andb_true_iff, !Z.leb_le. done. Qed.

Lemma exact_Int (z z' : Z) :
  Num.exact z = Some (Int z') -> z' = z /\ - 2 ^ 53 <= z <= 2 ^ 53.
Proof.
  unfold Num.exact. destruct (Num.safe z) eqn:E; [|done].
  intros [= <-]. split; [done | by apply safe_spec].
Qed.

(** What [parseInt] reads as an integer lies in the exact range. *)
Lemma parseInt_or_Int (x : option string) (d z : Z) :
  Num.parseInt_or x d = Some (Int z) -> - 2 ^ 53 <= z <= 2 ^ 53.
Proof.
  destruct x as [s|]; cbn [Num.parseInt_or].
  - unfold Num.parseInt.
    repeat match goal with
           | |- context [let '(_, _) := ?e in _] => destruct e
           end.
    destruct (Num.digits _ _ _); [|done].
    intros H. by apply exact_Int in H as [-> ?].
  - intros H. by apply exact_Int in H as [-> ?].
Qed.

Lemma pred_times_Int (P L : Z) :
  - 2 ^ 53 <= P - 1 -> (P - 1) * L <= 2 ^ 53 -> 0 <= (P - 1) * L ->
  P - 1 <= 2 ^ 53 ->
  Num.pred_times (Int P) (Int L) = Some (Int ((P - 1) * L)).
Proof.
  intros H1 H2 H3 H4. unfold Num.pred_times.
  rewrite (proj2 (safe_spec (P - 1))) by lia.
  unfold Num.exact. by rewrite (proj2 (safe_spec ((P - 1) * L))) by lia.
Qed.

Lemma listProducts_page (amb : Ambient) (st : Store)
    (query : gmap string string) (P L : Z) :
  Num.parseInt_or (query !! "page") 1 = Some (Int P) ->
  Num.parseInt_or (query !! "limit") 10 = Some (Int L) ->
  1 <= P -> 1 <= L -> (P - 1) * L <= 2 ^ 53 ->
  listProducts amb st query =
    Resolved (mkResponse 200
      (ListBody (length (page_items (tie amb) st query P L))
         (mkPagination (Int P)
            (Num.ceil_div (Z.of_nat (length (List.filter (wanted query) st)))
                          (Int L))
            (Z.of_nat (length (List.filter (wanted query) st)))
            (Int L))
         (page_items (tie amb) st query P L))).
Proof.
  intros HP HL H1P H1L Hskip. unfold listProducts. rewrite HP, HL.
  cbn [covered await].
  pose proof (parseInt_or_Int _ _ _ HP) as HPr.
  rewrite (pred_times_Int P L) by nia. cbn [covered await].
  destruct (list_filter_test query) as [t [Ht Hw]].
  cbv zeta in Ht.
  unfold countDocuments, exec.
  cbn [with_sort with_skip with_limit find q_filter q_limit q_skip q_sort].
  rewrite Ht. cbn [covered await].
  rewrite (filter_ext_bool t (wanted query) st Hw).
  cbn [apply_skip].
  replace (0 <=? (P - 1) * L) with true by (symmetry; apply Z.leb_le; nia).
  cbn [covered await apply_limit].
  replace (L =? 0) with false by (symmetry; apply Z.eqb_neq; lia).
  replace (0 <? L) with true by (symmetry; apply Z.ltb_lt; lia).
  reflexivity.
Qed.

(** C2 (as the code has it).  For a list request whose [page] and [limit]
    parameters read as integers [P >= 1] and [L >= 1] (1 and 10 when the
    parameter is absent) in the range in which the numbers of the
    handler are exact, with [(P - 1) * L] in that range too, the handler
    answers 200 with the matching products sorted by name, in the order
    the store chooses among equal names, without the first [(P - 1) * L]
    of them and cut after [L]: at most [L] items, in ascending order of
    name.  The reported total is the number of products matching the
    filter, which depends on neither [P] nor [L], and the reported number
    of pages is the ceiling of that total divided by [L]. *)
Theorem C2_listProducts_pagination (amb : Ambient) (st : Store)
    (query : gmap string string) (P L : Z) :
  Num.parseInt_or (query !! "page") 1 = Some (Int P) ->
  Num.parseInt_or (query !! "limit") 10 = Some (Int L) ->
  1 <= P -> 1 <= L -> (P - 1) * L <= 2 ^ 53 ->
  let matching := List.filter (wanted query) st in
  let total := Z.of_nat (length matching) in
  let sorted := sort_by (tie amb) NameAsc matching in
  let items := take (Z.to_nat L) (drop (Z.to_nat ((P - 1) * L)) sorted) in
  exists pages,
    listProducts amb st query =
      Resolved (mkResponse 200
        (ListBody (length items) (mkPagination (Int P) (Int pages) total (Int L))
                  items))
    /\ (length items <= Z.to_nat L)%nat
    /\ sorted ≡ₚ matching
    /\ StronglySorted name_le sorted
    /\ StronglySorted name_le items
    /\ (pages - 1) * L < total <= pages * L.
Proof.
  intros HP HL H1P H1L Hskip matching total sorted items.
  destruct (ceil_div_bounds total L H1L) as [pages [Hc Hb]].
  exists pages. split; [|split; [|split; [|split; [|split]]]].
  - rewrite (listProducts_page amb st query P L) by done.
    fold matching. fold total. rewrite Hc. reflexivity.
  - unfold items. rewrite length_take. lia.
  - apply sort_by_name_perm.
  - apply sort_by_name_sorted.
  - apply StronglySorted_take_drop, sort_by_name_sorted.
  - exact Hb.
Qed.

Lemma C2_listProducts_pagination_witness :
  let query : gmap string string := <["page" := "2"]> (<["limit" := "2"]> ∅) in
  exists pages,
    listProducts (mkAmbient 0 "u") seeded query =
      Resolved (mkResponse 200
        (ListBody 2 (mkPagination (Int 2) (Int pages) 5 (Int 2))
           [ mkProduct "1" "Laptop" (inject_Z 1200) "electronics" true 0 0;
             mkProduct "2" "Smartphone" (inject_Z 800) "electronics" true 0 0 ]))
    /\ (pages - 1) * 2 < 5 <= pages * 2.
Proof.
  intros query.
  destruct (C2_listProducts_pagination (mkAmbient 0 "u") seeded query 2 2)
    as [pages [H [_ [_ [_ [_ Hb]]]]]].
  - vm_compute. reflexivity.
  - vm_compute. reflexivity.
  - lia.
  - lia.
  - lia.
  - exists pages. split; [exact H | exact Hb].
Defined.

(** Against C2 as stated: with [limit=0] the store applies no limit, so
    the five products of the seeded collection all come back, more than
    the limit of 0, and the number of pages is not a number of pages. *)
Lemma C2_limit_zero_returns_all :
  exists items,
    listProducts (mkAmbient 0 "u") seeded (<["limit" := "0"]> ∅) =
      Resolved (mkResponse 200
        (ListBody 5 (mkPagination (Int 1) Infinity 5 (Int 0)) items))
    /\ (Z.to_nat 0 < length items)%nat.
Proof.
  eexists. split.
  - vm_compute. reflexivity.
  - vm_compute. lia.
Qed.

(** ** Search *)

Lemma list_ascii_of_lower_string (s : string) :
  list_ascii_of_string (lower_string s) = lower <$> list_ascii_of_string s.
Proof. unfold lower_string. apply list_ascii_of_string_of_list_ascii. Qed.


Lemma compile_literal (l : list ascii) :
  forallb literal_char l = true ->
  Regex.compile_list l = Some (Regex.Lit <$> l).
Proof.
  induction l as [|c l IH]; simpl; [done|].
  rewrite andb_true_iff. intros [Hc Hl]. rewrite (IH Hl).
  unfold literal_char in Hc. rewrite !andb_true_iff, !negb_true_iff in Hc.
  destruct Hc as [[[Hdot Hsp] Hlt] Hnul].
  unfold Regex.compile_char. rewrite Hdot, Hsp, Hnul. cbn [orb].
  apply Nat.ltb_lt in Hlt.
  replace (128 <=? nat_of_ascii c)%nat with false
    by (symmetry; apply Nat.leb_gt; lia).
  done.
Qed.

Lemma match_here_literal (p l : list ascii) :
  Regex.match_here true (Regex.Lit <$> p) l =
    prefixb (lower <$> p) (lower <$> l).
Proof.
  revert l. induction p as [|a p IH]; intros [|b l]; simpl; try done.
  by rewrite IH.
Qed.

Lemma search_literal (p l : list ascii) :
  Regex.search true (Regex.Lit <$> p) l = infixb (lower <$> p) (lower <$> l).
Proof.
  induction l as [|b l IH].
  - simpl. by rewrite match_here_literal.
  - change (Regex.search true (Regex.Lit <$> p) (b :: l))
      with (Regex.match_here true (Regex.Lit <$> p) (b :: l)
            || Regex.search true (Regex.Lit <$> p) l).
    rewrite IH, match_here_literal. reflexivity.
Qed.

Lemma searchProducts_literal (st : Store) (query : gmap string string)
    (q : string) :
  query !! "q" = Some q -> q <> "" -> literal q = true ->
  searchProducts st query =
    Resolved (mkResponse 200
      (SearchBody (length (List.filter (fun p => contains_cib (name p) q) st)) q
                  (List.filter (fun p => contains_cib (name p) q) st))).
Proof.
  intros Hq Hne Hlit. unfold searchProducts. rewrite Hq.
  destruct q as [|a q']; [done|].
  unfold exec. cbn [find q_filter q_sort q_skip q_limit filter_test cond_test].
  unfold Regex.test, Regex.compile.
  rewrite (compile_literal _ Hlit).
  cbn [Regex.case_insensitive String.eqb Ascii.eqb Bool.eqb covered await
       apply_skip apply_limit].
  cbn.
  rewrite (filter_ext_bool _ (fun p => contains_cib (name p) (String a q')) st).
  - reflexivity.
  - intros p. rewrite andb_true_r.
    unfold contains_cib, includes.
    rewrite !list_ascii_of_lower_string.
    apply (search_literal (list_ascii_of_string (String a q'))).
Qed.


Example search_laptop :
  searchProducts seeded (<["q" := "laptop"]> ∅) =
    Resolved (mkResponse 200
      (SearchBody 1 "laptop"
         [ mkProduct "1" "Laptop" (inject_Z 1200) "electronics" true 0 0 ]))
  /\ searchProducts seeded (<["q" := "tablet"]> ∅) =
       Resolved (mkResponse 200 (SearchBody 0 "tablet" [])).
Proof. split; vm_compute; reflexivity. Qed.


(** ** Partial update *)

Lemma split_first_spec (t : Product -> bool) (st : Store) before p after :
  split_first t st = Some (before, p, after) ->
  st = before ++ p :: after /\ t p = true
  /\ Forall (fun x => t x = false) before.
Proof.
  revert before. induction st as [|x st IH]; intros before; simpl; [done|].
  destruct (t x) eqn:Ex.
  - intros [= <- <- <-]. by repeat split.
  - destruct (split_first t st) as [[[b' x'] a']|]; [|done].
    intros [= <- <- <-].
    destruct (IH b' eq_refl) as [-> [Hp Hb]].
    repeat split; [done|]. by constructor.
Qed.

Lemma assoc_Some (k : string) (fs : list (string * value)) (v : value) :
  assoc k fs = Some v -> (k, v) ∈ fs.
Proof.
  induction fs as [|[k' v'] fs IH]; cbn [assoc]; [done|].
  destruct (String.eqb k' k) eqn:E.
  - apply String.eqb_eq in E as ->. intros [= ->]. left.
  - intros H. right. by apply IH.
Qed.

Lemma assoc_None (k : string) (fs : list (string * value)) :
  k ∉ fst <$> fs -> assoc k fs = None.
Proof.
  induction fs as [|[k' v'] fs IH]; cbn [assoc]; [done|].
  rewrite fmap_cons, not_elem_of_cons. cbn [fst]. intros [Hk Hfs].
  destruct (String.eqb k' k) eqn:E; [|by apply IH].
  apply String.eqb_eq in E. congruence.
Qed.

Lemma mentions_spec (k : string) (fs : list (string * value)) :
  mentions k fs = true <-> k ∈ fst <$> fs.
Proof.
  unfold mentions. rewrite existsb_exists. split.
  - intros (x & Hx & E). apply String.eqb_eq in E as ->.
    by apply list_elem_of_In.
  - intros H. exists k. split; [by apply list_elem_of_In|].
    apply String.eqb_refl.
Qed.

Lemma mentions_false (k : string) (fs : list (string * value)) :
  mentions k fs = false <-> k ∉ fst <$> fs.
Proof. rewrite <- mentions_spec. by destruct (mentions k fs). Qed.

Lemma operand_spec (b : ReqBody) (op : string) fs :
  operand b op = Some fs ->
  (b !! op = None /\ fs = []) \/ b !! op = Some (VObject fs).
Proof.
  unfold operand. destruct (b !! op) as [[| | | |[|f l]|]|]; try done.
  - case_bool_decide; [|done]. intros [= <-]. by right.
  - intros [= <-]. by left.
Qed.

Lemma existsb_false {A} (f : A -> bool) (l : list A) (x : A) :
  existsb f l = false -> x ∈ l -> f x = false.
Proof.
  intros H Hx. destruct (f x) eqn:E; [|done].
  rewrite <- H. symmetry. apply existsb_exists.
  exists x. split; [by apply list_elem_of_In | done].
Qed.

Lemma cast_String_Keep (x : option value) (c : change string) :
  cast_String x = Some c ->
  match c with
  | Keep => x = None
  | Put s => x = Some (VStr s) /\ s <> ""
  | Remove => False
  end.
Proof.
  destruct x as [[| | |[|a r]| |]|]; cbn; try done; by intros [= <-].
Qed.

Lemma cast_Number_Keep (x : option value) (c : change Q) :
  cast_Number x = Some c ->
  match c with
  | Keep => x = None
  | Put q => x = Some (VNum q)
  | Remove => False
  end.
Proof.
  destruct x as [[| | | | |]|]; cbn; try done; by intros [= <-].
Qed.

Lemma cast_Boolean_Keep (x : option value) (c : change bool) :
  cast_Boolean x = Some c ->
  match c with
  | Keep => x = None
  | Put v => x = Some (VBool v)
  | Remove => False
  end.
Proof.
  destruct x as [[| | | | |]|]; cbn; try done; by intros [= <-].
Qed.

Lemma setting_None (b : ReqBody) sets (k : string) :
  (b !! "$set" = None /\ sets = []) \/ b !! "$set" = Some (VObject sets) ->
  ~ names b k -> setting b sets k = None.
Proof.
  intros Hsets Hn. unfold setting.
  destruct (b !! k) eqn:E.
  - destruct Hn. left. by eexists.
  - apply assoc_None. intros Hk. apply Hn. right. left.
    destruct Hsets as [[_ ->] | Hs]; [by apply elem_of_nil in Hk|].
    by exists sets.
Qed.

Lemma setting_Some (b : ReqBody) sets (k : string) (v : value) :
  (b !! "$set" = None /\ sets = []) \/ b !! "$set" = Some (VObject sets) ->
  setting b sets k = Some v -> sets_to b k v.
Proof.
  intros Hsets. unfold setting, sets_to.
  destruct (b !! k) eqn:E; [intros [= ->]; by left|].
  intros H. apply assoc_Some in H. right.
  destruct Hsets as [[_ ->] | Hs]; [by apply elem_of_nil in H|].
  by exists sets.
Qed.

(** What a covered update document does to each path of the schema. *)
Lemma cast_update_spec (b : ReqBody) (u : Update) :
  cast_update b = Some u ->
  (~ names b "id" -> u_id u = Keep)
  /\ (~ names b "name" -> u_name u = Keep)
  /\ (~ names b "price" -> u_price u = Keep)
  /\ (~ names b "category" -> u_category u = Keep)
  /\ (~ names b "inStock" -> u_inStock u = Keep)
  /\ match u_id u with
     | Keep => True
     | Put i => i <> "" /\ sets_to b "id" (VStr i)
     | Remove => False
     end
  /\ match u_name u with
     | Keep => True
     | Put n => n <> "" /\ sets_to b "name" (VStr n)
     | Remove => False
     end
  /\ match u_price u with
     | Keep => True
     | Put q => sets_to b "price" (VNum q)
     | Remove => False
     end
  /\ match u_category u with
     | Keep => True
     | Put c => c <> "" /\ sets_to b "category" (VStr c)
     | Remove => False
     end
  /\ ~ names b "createdAt" /\ ~ names b "updatedAt".
Proof.
  unfold cast_update.
  destruct (operand b "$set") as [sets|] eqn:Es; [|done].
  destruct (operand b "$unset") as [unsets|] eqn:Eu; [|done].
  apply operand_spec in Es, Eu.
  match goal with
  | |- context [if ?c then None else _] => destruct c eqn:Ec; [done|]
  end.
  rewrite !orb_false_iff in Ec.
  destruct Ec as ((((((_ & _) & Hm) & Hmu) & _) & _) & _).
  destruct (cast_String (setting b sets "id")) as [ci|] eqn:Ei; [|done].
  destruct (cast_String (setting b sets "name")) as [cn|] eqn:En; [|done].
  destruct (cast_Number (setting b sets "price")) as [cp|] eqn:Ep; [|done].
  destruct (cast_String (setting b sets "category")) as [cc|] eqn:Ecat;
    [|done].
  destruct (cast_Boolean (setting b sets "inStock")) as [cs|] eqn:Est;
    [|done].
  intros [= <-]. cbn [u_id u_name u_price u_category u_inStock].
  apply cast_String_Keep in Ei, En, Ecat.
  apply cast_Number_Keep in Ep. apply cast_Boolean_Keep in Est.
  assert (Hunset : forall k, ~ names b k -> mentions k unsets = false).
  { intros k Hn. apply mentions_false. intros Hk. apply Hn. right. right.
    destruct Eu as [[_ ->] | Hu]; [by apply elem_of_nil in Hk|].
    by exists unsets. }
  assert (Hmanaged : forall k, k ∈ managed -> ~ names b k).
  { intros k Hk [[v Hv] | [(fs & Hfs & Hin) | (fs & Hfs & Hin)]].
    - unfold names_managed in Hm.
      apply (existsb_false _ _ k) in Hm; [|done].
      cbv beta in Hm. by rewrite Hv in Hm.
    - assert (fs = sets) as -> by (destruct Es as [[? _] | ?]; congruence).
      apply (existsb_false _ _ k) in Hmu;
        [|rewrite elem_of_app; by left].
      apply not_true_iff_false in Hmu. apply Hmu, existsb_exists.
      exists k. split; [by apply list_elem_of_In | apply String.eqb_refl].
    - assert (fs = unsets) as -> by (destruct Eu as [[? _] | ?]; congruence).
      apply (existsb_false _ _ k) in Hmu;
        [|rewrite elem_of_app; by right].
      apply not_true_iff_false in Hmu. apply Hmu, existsb_exists.
      exists k. split; [by apply list_elem_of_In | apply String.eqb_refl]. }
  split; [|split; [|split; [|split; [|split]]]].
  - intros Hn. rewrite (setting_None b sets "id" Es Hn) in Ei.
    destruct ci as [|?|]; [done | by destruct Ei | done].
  - intros Hn. rewrite (setting_None b sets "name" Es Hn) in En.
    destruct cn as [|?|]; [done | by destruct En | done].
  - intros Hn. rewrite (setting_None b sets "price" Es Hn) in Ep.
    by destruct cp.
  - intros Hn. rewrite (setting_None b sets "category" Es Hn) in Ecat.
    destruct cc as [|?|]; [done | by destruct Ecat | done].
  - intros Hn. rewrite (Hunset _ Hn).
    rewrite (setting_None b sets "inStock" Es Hn) in Est. by destruct cs.
  - split; [|split; [|split; [|split; [|split]]]].
    + destruct ci as [|i|]; [done | | done]. destruct Ei as [Ei ?].
      split; [done | by apply (setting_Some b sets)].
    + destruct cn as [|n|]; [done | | done]. destruct En as [En ?].
      split; [done | by apply (setting_Some b sets)].
    + destruct cp as [|q|]; [done | | done]. by apply (setting_Some b sets).
    + destruct cc as [|c|]; [done | | done]. destruct Ecat as [Ecat ?].
      split; [done | by apply (setting_Some b sets)].
    + apply Hmanaged. unfold managed. do 2 right. left.
    + apply Hmanaged. unfold managed. do 3 right. left.
Qed.

Lemma has_id_spec (key : string) (p : Product) :
  has_id key p = true <-> id p = key.
Proof. unfold has_id. apply String.eqb_eq. Qed.

Lemma updateProduct_resolved amb st key b resp st' :
  updateProduct amb st key b = Resolved (resp, st') ->
  exists u before p after,
    cast_update b = Some u
    /\ st = before ++ p :: after
    /\ id p = key
    /\ Forall (fun x => id x <> key) before
    /\ st' = before ++ apply_update u (now amb) p :: after
    /\ resp = updated (apply_update u (now amb) p)
    /\ Forall (fun x => id x <> id (apply_update u (now amb) p))
              (before ++ after).
Proof.
  unfold updateProduct, findOneAndUpdate.
  destruct (cast_update b) as [u|] eqn:Eu; [|done]. cbn [covered await].
  destruct (split_first (has_id key) st) as [[[before p] after]|] eqn:Es;
    [|done].
  cbv zeta.
  destruct (existsb (has_id (id (apply_update u (now amb) p)))
              (before ++ after)) eqn:Ex; [done|].
  cbn [await]. intros [= <- <-].
  apply split_first_spec in Es as [-> [Hp Hb]].
  exists u, before, p, after.
  split; [done|]. split; [done|]. split; [by apply has_id_spec|].
  split; [|split; [done|split; [done|]]].
  - eapply Forall_impl; [exact Hb|]. intros x Hx Heq.
    apply has_id_spec in Heq. cbv beta in Hx. congruence.
  - apply Forall_forall. intros x Hx Heq.
    apply not_true_iff_false in Ex. apply Ex.
    apply existsb_exists. exists x. split; [by apply list_elem_of_In|].
    by apply has_id_spec.
Qed.

Lemma dispatch_update (key : string) :
  dispatch PUT ["api"; "products"; key] =
    Some (mkRoute PUT [Lit "api"; Lit "products"; Param]
            [Authenticate; ValidateProductUpdate] HUpdate, Some key).
Proof. vm_compute. reflexivity. Qed.

Lemma dispatch_delete (key : string) :
  dispatch DELETE ["api"; "products"; key] =
    Some (mkRoute DELETE [Lit "api"; Lit "products"; Param]
            [Authenticate] HDelete, Some key).
Proof. vm_compute. reflexivity. Qed.

(** The update route: authentication, then validation, then the handler. *)
Lemma app_put env amb st key apiKey b :
  app env amb st (put key apiKey b) =
    match authenticate env (Some apiKey) with
    | Respond r => Some (Sent r, st)
    | Next =>
        match validateProductUpdate b with
        | Respond r => Some (Sent r, st)
        | Next => asyncHandler env st (updateProduct amb st key b)
        end
    end.
Proof.
  unfold app.
  change (dispatch _ _) with (dispatch PUT ["api"; "products"; key]).
  rewrite dispatch_update.
  cbn [r_chain r_handler run_chain run_middleware run_handler put
       headers reqBody default].
  rewrite lookup_insert_eq.
  destruct (authenticate env (Some apiKey)); [|done].
  by destruct (validateProductUpdate b).
Qed.

(** The delete route: authentication, then the handler. *)
Lemma app_delete env amb st key apiKey :
  app env amb st (delete_ key apiKey) =
    match authenticate env (Some apiKey) with
    | Respond r => Some (Sent r, st)
    | Next => asyncHandler env st (deleteProduct st key)
    end.
Proof.
  unfold app.
  change (dispatch _ _) with (dispatch DELETE ["api"; "products"; key]).
  rewrite dispatch_delete.
  cbn [r_chain r_handler run_chain run_middleware run_handler delete_
       headers reqBody default].
  rewrite lookup_insert_eq.
  by destruct (authenticate env (Some apiKey)).
Qed.

(** C6 (as the code has it).  A successful update, whose payload is
    made of plain fields and of the operators [$set] and [$unset],
    replaces the first product with the given id and no other; in the
    replacement, each of [id], [name], [price], [category] and [inStock]
    that the payload does not name, at top level or under an operator,
    has its former value, and so has [createdAt].  [updatedAt], which
    the payload cannot name, is set to the time of the update; this
    holds for the empty payload too. *)
Theorem C6_update_keeps_absent_fields amb st key b resp st' :
  updateProduct amb st key b = Resolved (resp, st') ->
  exists before p after p',
    st = before ++ p :: after
    /\ id p = key
    /\ Forall (fun x => id x <> key) before
    /\ st' = before ++ p' :: after
    /\ resp = updated p'
    /\ (~ names b "id" -> id p' = id p)
    /\ (~ names b "name" -> name p' = name p)
    /\ (~ names b "price" -> price p' = price p)
    /\ (~ names b "category" -> category p' = category p)
    /\ (~ names b "inStock" -> stored_inStock p' = stored_inStock p)
    /\ createdAt p' = createdAt p
    /\ ~ names b "updatedAt"
    /\ updatedAt p' = now amb.
Proof.
  intros H.
  apply updateProduct_resolved in H
    as (u & before & p & after & Hu & Hst & Hid & Hb & Hst' & Hr & _).
  apply cast_update_spec in Hu
    as (Hi & Hn & Hp & Hc & Hs & _ & _ & _ & _ & _ & Hnu).
  exists before, p, after, (apply_update u (now amb) p).
  repeat (split; [done|]).
  unfold apply_update.
  cbn [id name price category stored_inStock createdAt updatedAt].
  split; [intros E; by rewrite (Hi E)|].
  split; [intros E; by rewrite (Hn E)|].
  split; [intros E; by rewrite (Hp E)|].
  split; [intros E; by rewrite (Hc E)|].
  split; [intros E; by rewrite (Hs E)|].
  done.
Qed.

Lemma C6_update_keeps_absent_fields_witness :
  let b : ReqBody := <["price" := VNum (inject_Z 60)]> ∅ in
  exists before p after p',
    seeded = before ++ p :: after
    /\ id p = "3"
    /\ ~ names b "name"
    /\ name p' = name p
    /\ price p' = inject_Z 60
    /\ updatedAt p' = 5.
Proof.
  intros b.
  destruct (C6_update_keeps_absent_fields (mkAmbient 5 "u") seeded "3" b
              (updated (mkProduct "3" "Coffee Maker" (inject_Z 60) "kitchen"
                                  false 0 5))
              [ mkProduct "1" "Laptop" (inject_Z 1200) "electronics" true 0 0;
                mkProduct "2" "Smartphone" (inject_Z 800) "electronics" true 0 0;
                mkProduct "3" "Coffee Maker" (inject_Z 60) "kitchen" false 0 5;
                mkProduct "4" "Wireless Mouse" (inject_Z 25) "electronics" true 0 0;
                mkProduct "5" "Blender" (inject_Z 80) "kitchen" true 0 0 ])
    as (before & p & after & p' & Hst & Hid & _ & _ & Hr & _ & Hn & _ & _ & _
        & _ & _ & Hu).
  - vm_compute. reflexivity.
  - assert (Hnot : ~ names b "name").
    { intros [[v Hv] | [(fs & Hfs & _) | (fs & Hfs & _)]];
        vm_compute in Hv || vm_compute in Hfs; discriminate. }
    exists before, p, after, p'.
    injection Hr as <-.
    split; [exact Hst|]. split; [exact Hid|].
    split; [exact Hnot|]. split; [by apply Hn|]. split; reflexivity.
Defined.

(** Against C6 as stated: the payload [{ price: 60 }] does not name
    [updatedAt], and the update changes it from 0 to the time of the
    update. *)
Lemma C6_updatedAt_changes :
  let b : ReqBody := <["price" := VNum (inject_Z 60)]> ∅ in
  let old := mkProduct "3" "Coffee Maker" (inject_Z 50) "kitchen" false 0 0 in
  let new := mkProduct "3" "Coffee Maker" (inject_Z 60) "kitchen" false 0 5 in
  let others1 :=
    [ mkProduct "1" "Laptop" (inject_Z 1200) "electronics" true 0 0;
      mkProduct "2" "Smartphone" (inject_Z 800) "electronics" true 0 0 ] in
  let others2 :=
    [ mkProduct "4" "Wireless Mouse" (inject_Z 25) "electronics" true 0 0;
      mkProduct "5" "Blender" (inject_Z 80) "kitchen" true 0 0 ] in
  seeded = others1 ++ old :: others2
  /\ b !! "updatedAt" = None
  /\ app (mkEnv (Some "k") None) (mkAmbient 5 "u") seeded (put "3" "k" b) =
       Some (Sent (updated new), others1 ++ new :: others2)
  /\ updatedAt new <> updatedAt old.
Proof. repeat split; vm_compute; first [reflexivity | discriminate]. Qed.




(** * Further properties of the handlers *)

(** ** Looking a product up by id *)

Lemma split_first_none (t : Product -> bool) (st : Store) :
  Forall (fun x => t x = false) st -> split_first t st = None.
Proof.
  induction 1 as [|x st Hx _ IH]; simpl; [done|]. by rewrite Hx, IH.
Qed.

Lemma split_first_app (t : Product -> bool) (before after : Store) p :
  Forall (fun x => t x = false) before -> t p = true ->
  split_first t (before ++ p :: after) = Some (before, p, after).
Proof.
  intros Hb Hp. induction Hb as [|x before Hx _ IH]; simpl.
  - by rewrite Hp.
  - by rewrite Hx, IH.
Qed.

Lemma has_id_false (key : string) (p : Product) :
  has_id key p = false <-> id p <> key.
Proof. unfold has_id. apply String.eqb_neq. Qed.

Lemma Forall_has_id_false (key : string) (st : Store) :
  Forall (fun x => id x <> key) st ->
  Forall (fun x => has_id key x = false) st.
Proof.
  intros H. eapply Forall_impl; [exact H|]. intros x. apply has_id_false.
Qed.

Lemma filter_none {A} (f : A -> bool) (l : list A) :
  Forall (fun x => f x = false) l -> List.filter f l = [].
Proof. induction 1 as [|x l Hx _ IH]; simpl; [done|]. by rewrite Hx. Qed.

Lemma findOne_id (st : Store) (key : string) :
  findOne st [CId key] = Resolved (head (List.filter (has_id key) st)).
Proof.
  unfold findOne. cbn. f_equal. f_equal. apply filter_ext_bool.
  intros p. apply andb_true_r.
Qed.

Lemma getProduct_missing (st : Store) (key : string) :
  Forall (fun x => id x <> key) st ->
  getProduct st key = Rejected (NotFoundError (not_found_message key)).
Proof.
  intros H. unfold getProduct. rewrite findOne_id.
  by rewrite (filter_none _ _ (Forall_has_id_false key st H)).
Qed.

Lemma getProduct_first (before after : Store) (p : Product) :
  Forall (fun x => id x <> id p) before ->
  getProduct (before ++ p :: after) (id p) = Resolved (fetched p).
Proof.
  intros H. unfold getProduct. rewrite findOne_id.
  rewrite List.filter_app, (filter_none _ _ (Forall_has_id_false _ _ H)).
  cbn [app List.filter]. by rewrite (proj2 (has_id_spec (id p) p)).
Qed.

(** X1. Fetching by id gives the first product of the collection with
    that id, and throws the [NotFoundError] that names the id when no
    product has it. *)
Theorem getProduct_first_or_not_found (st : Store) (key : string) :
  (Forall (fun x => id x <> key) st ->
   getProduct st key = Rejected (NotFoundError (not_found_message key))
   /\ includes (not_found_message key) key = true)
  /\ (forall before p after,
        st = before ++ p :: after -> id p = key ->
        Forall (fun x => id x <> key) before ->
        getProduct st key = Resolved (fetched p)).
Proof.
  split.
  - intros H. split; [by apply getProduct_missing|].
    unfold includes, not_found_message.
    apply infixb_spec.
    exists (list_ascii_of_string "Product with id "),
           (list_ascii_of_string " not found").
    clear. set (pre := "Product with id ").
    assert (Happ : forall a b,
      list_ascii_of_string (a +:+ b) =
        list_ascii_of_string a ++ list_ascii_of_string b).
    { induction a as [|c a IH]; intros b; simpl; [done | by rewrite IH]. }
    by rewrite !Happ.
  - intros before p after -> <- Hb. by apply getProduct_first.
Qed.

Lemma authenticate_accepted (env : Env) (k : string) :
  accepted_key env k -> authenticate env (Some k) = Next.
Proof.
  intros [Hk Hacc]. rewrite authenticate_present by done. by case_decide.
Qed.

Lemma errorHandler_NotFound (env : Env) (m : string) :
  errorHandler env (NotFoundError m) = not_found env m.
Proof.
  rewrite errorHandler_plain by (cbn; discriminate). reflexivity.
Qed.

(** ** Deleting *)

Lemma deleteProduct_missing (st : Store) (key : string) :
  Forall (fun x => id x <> key) st ->
  deleteProduct st key = Rejected (NotFoundError (not_found_message key)).
Proof.
  intros H. unfold deleteProduct, findOneAndDelete.
  by rewrite (split_first_none _ _ (Forall_has_id_false key st H)).
Qed.

Lemma deleteProduct_first (before after : Store) (p : Product) :
  Forall (fun x => id x <> id p) before ->
  deleteProduct (before ++ p :: after) (id p) =
    Resolved (deleted p, before ++ after).
Proof.
  intros H. unfold deleteProduct, findOneAndDelete.
  rewrite (split_first_app _ before after p (Forall_has_id_false _ _ H))
    by by apply has_id_spec.
  reflexivity.
Qed.

Lemma deleteProduct_resolved st key resp st' :
  deleteProduct st key = Resolved (resp, st') ->
  exists before p after,
    st = before ++ p :: after /\ id p = key
    /\ Forall (fun x => id x <> key) before
    /\ st' = before ++ after /\ resp = deleted p.
Proof.
  unfold deleteProduct, findOneAndDelete.
  destruct (split_first (has_id key) st) as [[[before p] after]|] eqn:Es;
    [|done].
  cbn [await]. intros [= <- <-].
  apply split_first_spec in Es as [-> [Hp Hb]].
  exists before, p, after. split; [done|]. split; [by apply has_id_spec|].
  split; [|done].
  eapply Forall_impl; [exact Hb|]. intros x. apply has_id_false.
Qed.

(** X2. A delete request with an accepted key removes the first product
    with the given id, and only that one, and answers 200 with it; when
    no product has the id, it answers 404 with the message that names
    the id and leaves the collection as it was. *)
Theorem delete_removes_first_or_not_found env amb st key apiKey :
  accepted_key env apiKey ->
  (Forall (fun x => id x <> key) st ->
   app env amb st (delete_ key apiKey) =
     Some (not_found env (not_found_message key), st))
  /\ (forall before p after,
        st = before ++ p :: after -> id p = key ->
        Forall (fun x => id x <> key) before ->
        app env amb st (delete_ key apiKey) =
          Some (Sent (deleted p), before ++ after)).
Proof.
  intros Hacc. split.
  - intros H. rewrite app_delete, (authenticate_accepted _ _ Hacc).
    rewrite deleteProduct_missing by done. cbn [asyncHandler].
    by rewrite errorHandler_NotFound.
  - intros before p after -> <- Hb.
    rewrite app_delete, (authenticate_accepted _ _ Hacc).
    by rewrite deleteProduct_first.
Qed.

Lemma delete_removes_first_or_not_found_witness :
  app (mkEnv (Some "k") None) (mkAmbient 5 "u") seeded (delete_ "9" "k") =
    Some (not_found (mkEnv (Some "k") None) "Product with id 9 not found",
          seeded)
  /\ app (mkEnv (Some "k") None) (mkAmbient 5 "u") seeded (delete_ "1" "k") =
       Some (Sent (deleted (mkProduct "1" "Laptop" (inject_Z 1200)
                                      "electronics" true 0 0)),
             skipn 1 seeded).
Proof.
  destruct (delete_removes_first_or_not_found (mkEnv (Some "k") None)
              (mkAmbient 5 "u") seeded "9" "k") as [H9 _].
  { split; [discriminate | by left]. }
  destruct (delete_removes_first_or_not_found (mkEnv (Some "k") None)
              (mkAmbient 5 "u") seeded "1" "k") as [_ H1].
  { split; [discriminate | by left]. }
  split.
  - apply H9. repeat constructor; discriminate.
  - apply (H1 [] (mkProduct "1" "Laptop" (inject_Z 1200) "electronics" true 0 0)
              (skipn 1 seeded)); [reflexivity | reflexivity | constructor].
Defined.

Lemma filter_has_id_other (k' : string) (before after : Store) (p : Product) :
  id p <> k' ->
  List.filter (has_id k') (before ++ p :: after) =
    List.filter (has_id k') (before ++ after).
Proof.
  intros H. rewrite !List.filter_app. cbn [List.filter].
  by rewrite (proj2 (has_id_false k' p) H).
Qed.

Lemma getProduct_filter (st st' : Store) (key : string) :
  List.filter (has_id key) st = List.filter (has_id key) st' ->
  getProduct st key = getProduct st' key.
Proof. intros H. unfold getProduct. by rewrite !findOne_id, H. Qed.

Lemma NoDup_ids_app_cons (before after : Store) (p : Product) :
  NoDup (ids (before ++ p :: after)) ->
  Forall (fun x => id x <> id p) (before ++ after)
  /\ NoDup (ids (before ++ after)).
Proof.
  unfold ids. rewrite !fmap_app, fmap_cons.
  intros H. apply NoDup_app in H as (Hb & Hba & Ha).
  apply NoDup_cons in Ha as [Hp Ha].
  split.
  - apply Forall_app. split; apply Forall_forall; intros x Hx Heq.
    + apply (Hba (id x)); [by apply list_elem_of_fmap_2|].
      rewrite Heq. left.
    + apply Hp. rewrite <- Heq. by apply list_elem_of_fmap_2.
  - apply NoDup_app. split; [done|]. split; [|done].
    intros y Hy Hy'. apply (Hba y Hy). by right.
Qed.

(** X3. After a successful delete the collection is one product shorter
    and every other id is fetched as before; when the ids of the
    collection are distinct, fetching the deleted id throws the
    [NotFoundError]. *)
Theorem delete_then_get st key resp st' :
  deleteProduct st key = Resolved (resp, st') ->
  S (length st') = length st
  /\ (forall k', k' <> key -> getProduct st' k' = getProduct st k')
  /\ (NoDup (ids st) ->
      getProduct st' key = Rejected (NotFoundError (not_found_message key))).
Proof.
  intros H.
  apply deleteProduct_resolved in H
    as (before & p & after & -> & <- & Hb & -> & _).
  split; [|split].
  - rewrite !length_app. cbn [length]. lia.
  - intros k' Hk. apply getProduct_filter.
    symmetry. apply filter_has_id_other. congruence.
  - intros Hnd. apply getProduct_missing.
    by apply NoDup_ids_app_cons in Hnd as [? _].
Qed.

Lemma delete_then_get_witness :
  getProduct (skipn 1 seeded) "1" =
    Rejected (NotFoundError "Product with id 1 not found")
  /\ getProduct (skipn 1 seeded) "2" = getProduct seeded "2".
Proof.
  destruct (delete_then_get seeded "1"
              (deleted (mkProduct "1" "Laptop" (inject_Z 1200) "electronics"
                                  true 0 0))
              (skipn 1 seeded)) as (_ & Hother & Hgone).
  - vm_compute. reflexivity.
  - split.
    + apply Hgone. unfold ids. vm_compute.
      repeat (constructor; [rewrite ?elem_of_cons, elem_of_nil;
                            intros H; repeat destruct H as [H | H];
                            discriminate || done |]).
      constructor.
    + apply Hother. discriminate.
Defined.

(** ** Updating *)

Lemma updateProduct_missing amb (st : Store) (key : string) (b : ReqBody) :
  is_Some (cast_update b) ->
  Forall (fun x => id x <> key) st ->
  updateProduct amb st key b =
    Rejected (NotFoundError (not_found_message key)).
Proof.
  intros [u Hu] H. unfold updateProduct, findOneAndUpdate.
  rewrite Hu. cbn [covered await].
  by rewrite (split_first_none _ _ (Forall_has_id_false key st H)).
Qed.

(** X4. An update request with an accepted key and a payload that passes
    validation and that the schema takes as an update document (plain
    fields and the operators [$set] and [$unset], each path of the
    schema given a value of its type), for an id that no product has,
    answers 404 with the message that names the id and leaves the
    collection as it was. *)
Theorem update_not_found env amb st key apiKey b :
  accepted_key env apiKey ->
  validateProductUpdate b = Next ->
  is_Some (cast_update b) ->
  Forall (fun x => id x <> key) st ->
  app env amb st (put key apiKey b) =
    Some (not_found env (not_found_message key), st).
Proof.
  intros Hacc Hv Hc H.
  rewrite app_put, (authenticate_accepted _ _ Hacc), Hv.
  rewrite updateProduct_missing by done. cbn [asyncHandler].
  by rewrite errorHandler_NotFound.
Qed.

Lemma update_not_found_witness :
  app (mkEnv (Some "k") None) (mkAmbient 5 "u") seeded
      (put "9" "k" (<["price" := VNum (inject_Z 60)]> ∅)) =
    Some (not_found (mkEnv (Some "k") None) "Product with id 9 not found",
          seeded).
Proof.
  apply (update_not_found (mkEnv (Some "k") None) (mkAmbient 5 "u") seeded
           "9" "k" (<["price" := VNum (inject_Z 60)]> ∅)).
  - split; [discriminate | by left].
  - vm_compute. reflexivity.
  - vm_compute. by eexists.
  - repeat constructor; discriminate.
Defined.

(** X5. After a successful update, whose payload is made of plain
    fields and of the operators [$set] and [$unset], the collection has
    as many products as before, fetching the id the product now has
    gives the updated product, and every id other than the old and the
    new one is fetched as before. *)
Theorem update_then_get amb st key b resp st' :
  updateProduct amb st key b = Resolved (resp, st') ->
  exists p',
    resp = updated p'
    /\ length st' = length st
    /\ getProduct st' (id p') = Resolved (fetched p')
    /\ (forall k', k' <> key -> k' <> id p' ->
        getProduct st' k' = getProduct st k').
Proof.
  intros H.
  apply updateProduct_resolved in H
    as (u & before & p & after & _ & -> & <- & Hb & -> & -> & Huniq).
  exists (apply_update u (now amb) p). split; [done|]. split; [|split].
  - by rewrite !length_app.
  - apply getProduct_first. by apply Forall_app in Huniq as [? _].
  - intros k' Hk Hk'. apply getProduct_filter.
    rewrite !filter_has_id_other by congruence. done.
Qed.

Lemma update_then_get_witness :
  let p' := mkProduct "3" "Coffee Maker" (inject_Z 60) "kitchen" false 0 5 in
  let st' := take 2 seeded ++ p' :: drop 3 seeded in
  getProduct st' "3" = Resolved (fetched p')
  /\ getProduct st' "4" = getProduct seeded "4".
Proof.
  intros p' st'.
  destruct (update_then_get (mkAmbient 5 "u") seeded "3"
              (<["price" := VNum (inject_Z 60)]> ∅) (updated p') st')
    as (q & Hr & _ & Hg & Hother).
  - vm_compute. reflexivity.
  - injection Hr as <-. split; [exact Hg|].
    apply Hother; discriminate.
Defined.

(** ** What the validators accept *)

Lemma blank_empty : blank "" = true.
Proof. reflexivity. Qed.

Lemma blank_false_nonempty (s : string) : blank s = false -> s <> "".
Proof. intros H ->. by rewrite blank_empty in H. Qed.

Lemma Qltb_false (q : Q) : Qltb q 0 = false <-> (0 <= q)%Q.
Proof. unfold Qltb. by rewrite negb_false_iff, Qle_bool_iff. Qed.

Lemma missing_or_blank_false (x : option value) :
  missing_or_blank x = false <->
  exists s, x = Some (VStr s) /\ blank s = false.
Proof.
  unfold missing_or_blank. split.
  - destruct x as [[| | |s| |]|]; rewrite ?orb_true_r; try done.
    intros H. apply orb_false_iff in H as [_ H]. eauto.
  - intros (s & -> & H). rewrite H, orb_false_r. cbn.
    apply blank_false_nonempty, str_nonempty_spec in H. by rewrite H.
Qed.

Lemma not_string_or_blank_false (x : option value) :
  negb (is_undefined x) && not_string_or_blank x = false <->
  x = None \/ exists s, x = Some (VStr s) /\ blank s = false.
Proof.
  split.
  - destruct x as [[| | |s| |]|]; cbn; try done; eauto.
  - intros [-> | (s & -> & H)]; cbn; done.
Qed.

Lemma price_ok (x : option value) :
  is_nullish x = false /\ not_number_or_negative x = false <->
  exists q, x = Some (VNum q) /\ (0 <= q)%Q.
Proof.
  split.
  - destruct x as [[| |q| | |]|]; cbn; intros [? H]; try done.
    apply Qltb_false in H. eauto.
  - intros (q & -> & H). cbn. split; [done | by apply Qltb_false].
Qed.

Lemma price_update_ok (x : option value) :
  negb (is_undefined x) && not_number_or_negative x = false <->
  x = None \/ exists q, x = Some (VNum q) /\ (0 <= q)%Q.
Proof.
  split.
  - destruct x as [[| |q| | |]|]; cbn; try done; eauto.
    intros H. apply Qltb_false in H. eauto.
  - intros [-> | (q & -> & H)]; cbn; [done | by apply Qltb_false].
Qed.

Lemma inStock_ok (x : option value) :
  negb (is_undefined x) && not_boolean x = false <->
  x = None \/ exists v, x = Some (VBool v).
Proof.
  split.
  - destruct x as [[|v| | | |]|]; cbn; try done; eauto.
  - by intros [-> | (v & ->)].
Qed.

Lemma validation_failed_Next (errors : list string) :
  validation_failed errors = Next <-> errors = [].
Proof. by destruct errors. Qed.

Lemma push_if_nil (c : bool) (m : string) (errors : list string) :
  push_if c m errors = [] <-> c = false /\ errors = [].
Proof.
  unfold push_if. destruct c.
  - split; [|by intros [? _]].
    intros H. apply app_eq_nil in H as [_ H]. discriminate H.
  - split; [done | by intros [_ ?]].
Qed.

Lemma validateProduct_Next_iff (b : ReqBody) :
  validateProduct b = Next <-> well_formed b.
Proof.
  unfold validateProduct, well_formed.
  rewrite validation_failed_Next, validateProduct_errors_fields.
  rewrite <- missing_or_blank_false, <- price_ok, <- missing_or_blank_false,
    <- inStock_ok.
  unfold name_violation, price_violation, category_violation,
    inStock_violation.
  destruct (missing_or_blank (b !! "name")),
    (is_nullish (b !! "price")),
    (not_number_or_negative (b !! "price")),
    (missing_or_blank (b !! "category")),
    (negb (is_undefined (b !! "inStock")) && not_boolean (b !! "inStock"));
    cbn; intuition congruence.
Qed.

Lemma validateProductUpdate_Next_iff (b : ReqBody) :
  validateProductUpdate b = Next <-> well_formed_update b.
Proof.
  unfold validateProductUpdate, well_formed_update.
  rewrite validation_failed_Next.
  unfold validateProductUpdate_errors. rewrite !push_if_nil.
  rewrite not_string_or_blank_false, price_update_ok,
    not_string_or_blank_false, inStock_ok.
  split.
  - intros (? & ? & ? & ? & _). done.
  - intros (? & ? & ? & ?). done.
Qed.

(** X6. [validateProduct] lets a payload through exactly when its name
    and its category are strings that are not blank, its price is a
    number that is not negative, and [inStock] is absent or a boolean. *)
Theorem validateProduct_accepts_iff (b : ReqBody) :
  validateProduct b = Next <-> well_formed b.
Proof.
  unfold validateProduct, well_formed.
  rewrite validation_failed_Next, validateProduct_errors_fields.
  rewrite <- missing_or_blank_false, <- price_ok, <- missing_or_blank_false,
    <- inStock_ok.
  unfold name_violation, price_violation, category_violation,
    inStock_violation.
  destruct (missing_or_blank (b !! "name")),
    (is_nullish (b !! "price")),
    (not_number_or_negative (b !! "price")),
    (missing_or_blank (b !! "category")),
    (negb (is_undefined (b !! "inStock")) && not_boolean (b !! "inStock"));
    cbn; intuition congruence.
Qed.

(** X7. [validateProductUpdate] lets a payload through exactly when each
    of name, price, category and [inStock] is absent or as
    [validateProduct] wants it; so it accepts the empty payload and every
    payload that [validateProduct] accepts. *)
Theorem validateProductUpdate_accepts_iff (b : ReqBody) :
  (validateProductUpdate b = Next <-> well_formed_update b)
  /\ (validateProduct b = Next -> validateProductUpdate b = Next)
  /\ validateProductUpdate ∅ = Next.
Proof.
  split; [apply validateProductUpdate_Next_iff|]. split; [|reflexivity].
  intros H. apply validateProductUpdate_Next_iff.
  apply validateProduct_Next_iff in H.
  destruct H as (Hn & Hp & Hc & Hs).
  repeat split; try (by right); done.
Qed.

(** ** Creating *)

Lemma existsb_has_id_false (k : string) (st : Store) :
  existsb (has_id k) st = false <-> Forall (fun x => id x <> k) st.
Proof.
  induction st as [|x st IH]; cbn [existsb].
  - split; [constructor | done].
  - rewrite orb_false_iff, IH, has_id_false, Forall_cons. done.
Qed.

Lemma productData_id amb (b : ReqBody) (i : string) :
  (truthy (b !! "id") = false /\ i = uuid amb) \/ b !! "id" = Some (VStr i) ->
  i <> "" ->
  productData amb b = <["id" := VStr i]> b.
Proof.
  intros [[Hf ->] | Hb] Hi; unfold productData.
  - by rewrite Hf.
  - rewrite Hb. cbn [truthy default].
    by rewrite (proj2 (str_nonempty_spec i) Hi).
Qed.

Lemma names_managed_insert_id (b : ReqBody) (v : value) :
  names_managed (<["id" := v]> b) = names_managed b.
Proof.
  unfold names_managed, managed. cbn [existsb].
  by rewrite !lookup_insert_ne by done.
Qed.

Lemma create_well_formed (b : ReqBody) (i : string) (now : Z) :
  well_formed b -> names_managed b = false -> i <> "" ->
  exists p,
    create (<["id" := VStr i]> b) now = Some p
    /\ id p = i
    /\ b !! "name" = Some (VStr (name p))
    /\ b !! "price" = Some (VNum (price p))
    /\ b !! "category" = Some (VStr (category p))
    /\ inStock p = inStock_or_default b
    /\ createdAt p = now /\ updatedAt p = now.
Proof.
  intros ((n & Hn & Hnb) & (q & Hq & _) & (c & Hc & Hcb) & Hs) Hm Hi.
  apply blank_false_nonempty in Hnb, Hcb.
  unfold create. rewrite names_managed_insert_id, Hm.
  rewrite lookup_insert_eq, !lookup_insert_ne by done.
  rewrite Hn, Hq, Hc. unfold inStock_or_default.
  destruct i as [|a i]; [done|]. destruct n as [|a' n]; [done|].
  destruct c as [|a'' c]; [done|].
  destruct Hs as [-> | [x ->]]; cbn [cast_Boolean]; eexists;
    (split; [reflexivity|]); cbn; done.
Qed.

(** X8. A create request with an accepted key and a payload that passes
    validation, that names no path the store manages, and whose id (the
    string given as [id], or the generated token when [id] is absent or
    falsy) is not in the collection, answers 201 and appends one
    product: it has that id, the name, price and category of the
    payload, [inStock] as given or [true], and both timestamps at the
    time of the request. *)
Theorem create_appends_payload env amb st apiKey b i :
  accepted_key env apiKey ->
  well_formed b ->
  names_managed b = false ->
  (truthy (b !! "id") = false /\ i = uuid amb) \/ b !! "id" = Some (VStr i) ->
  i <> "" ->
  Forall (fun x => id x <> i) st ->
  exists p,
    app env amb st (post_products apiKey b) =
      Some (Sent (created p), st ++ [p])
    /\ id p = i
    /\ b !! "name" = Some (VStr (name p))
    /\ b !! "price" = Some (VNum (price p))
    /\ b !! "category" = Some (VStr (category p))
    /\ inStock p = inStock_or_default b
    /\ createdAt p = now amb /\ updatedAt p = now amb.
Proof.
  intros Hacc Hwf Hm Hid Hi Hfresh.
  destruct (create_well_formed b i (now amb) Hwf Hm Hi) as (p & Hc & Hp).
  exists p. split; [|exact Hp].
  rewrite app_post_products, (authenticate_accepted _ _ Hacc).
  rewrite (proj2 (validateProduct_Next_iff b) Hwf).
  unfold createProduct, save.
  rewrite (productData_id amb b i Hid Hi), Hc. cbn [covered await].
  destruct Hp as (Hpi & _).
  rewrite Hpi, (proj2 (existsb_has_id_false i st) Hfresh).
  reflexivity.
Qed.

Lemma create_appends_payload_witness :
  let b : ReqBody :=
    <["name" := VStr "Pen"]>
      (<["price" := VNum (inject_Z 3)]> (<["category" := VStr "office"]> ∅)) in
  exists p,
    app (mkEnv (Some "k") None) (mkAmbient 5 "u-1") seeded
        (post_products "k" b) = Some (Sent (created p), seeded ++ [p])
    /\ id p = "u-1" /\ inStock p = true.
Proof.
  intros b.
  destruct (create_appends_payload (mkEnv (Some "k") None)
              (mkAmbient 5 "u-1") seeded "k" b "u-1")
    as (p & H & Hi & _ & _ & _ & Hs & _).
  - split; [discriminate | by left].
  - repeat split.
    + exists "Pen". by vm_compute.
    + exists (inject_Z 3). split; [by vm_compute | discriminate].
    + exists "office". by vm_compute.
    + by left.
  - vm_compute. reflexivity.
  - left. split; [vm_compute|]; reflexivity.
  - discriminate.
  - repeat constructor; discriminate.
  - exists p. split; [exact H|]. split; [exact Hi | exact Hs].
Defined.

(** X9. The same request for an id that a product of the collection
    already has is refused by the unique index: the answer has status
    500 and the collection is as it was. *)
Theorem create_duplicate_id env amb st apiKey b i :
  accepted_key env apiKey ->
  well_formed b ->
  names_managed b = false ->
  (truthy (b !! "id") = false /\ i = uuid amb) \/ b !! "id" = Some (VStr i) ->
  i <> "" ->
  Exists (fun x => id x = i) st ->
  exists body,
    app env amb st (post_products apiKey b) =
      Some (Sent (mkResponse 500 body), st).
Proof.
  intros Hacc Hwf Hm Hid Hi Hdup.
  destruct (create_well_formed b i (now amb) Hwf Hm Hi) as (p & Hc & Hpi & _).
  rewrite app_post_products, (authenticate_accepted _ _ Hacc).
  rewrite (proj2 (validateProduct_Next_iff b) Hwf).
  unfold createProduct, save.
  rewrite (productData_id amb b i Hid Hi), Hc. cbn [covered await].
  rewrite Hpi.
  destruct (existsb (has_id i) st) eqn:E.
  - cbn [await asyncHandler].
    rewrite errorHandler_plain by (cbn; discriminate).
    eexists. reflexivity.
  - apply existsb_has_id_false in E. apply Exists_exists in Hdup as (x & Hx & Hxi).
    rewrite Forall_forall in E. by destruct (E x Hx).
Qed.

Lemma create_duplicate_id_witness :
  let b : ReqBody :=
    <["id" := VStr "1"]>
      (<["name" := VStr "Pen"]>
         (<["price" := VNum (inject_Z 3)]> (<["category" := VStr "office"]> ∅))) in
  exists body,
    app (mkEnv (Some "k") None) (mkAmbient 5 "u-1") seeded
        (post_products "k" b) = Some (Sent (mkResponse 500 body), seeded).
Proof.
  intros b.
  apply (create_duplicate_id (mkEnv (Some "k") None) (mkAmbient 5 "u-1")
           seeded "k" b "1").
  - split; [discriminate | by left].
  - repeat split.
    + exists "Pen". by vm_compute.
    + exists (inject_Z 3). split; [by vm_compute | discriminate].
    + exists "office". by vm_compute.
    + by left.
  - vm_compute. reflexivity.
  - right. vm_compute. reflexivity.
  - discriminate.
  - left. reflexivity.
Defined.

Lemma createProduct_resolved amb st b resp st' :
  createProduct amb st b = Resolved (resp, st') ->
  exists p,
    resp = created p /\ st' = st ++ [p]
    /\ Forall (fun x => id x <> id p) st.
Proof.
  unfold createProduct, save.
  destruct (create (productData amb b) (now amb)) as [p|]; [|done].
  cbn [covered await].
  destruct (existsb (has_id (id p)) st) eqn:E; [done|].
  cbn [await]. intros [= <- <-].
  exists p. repeat split. by apply existsb_has_id_false.
Qed.

(** X10. After a successful create, fetching the id of the new product
    gives that product, and every other id is fetched as before. *)
Theorem create_then_get amb st b resp st' :
  createProduct amb st b = Resolved (resp, st') ->
  exists p,
    resp = created p
    /\ length st' = S (length st)
    /\ getProduct st' (id p) = Resolved (fetched p)
    /\ (forall k', k' <> id p -> getProduct st' k' = getProduct st k').
Proof.
  intros H. apply createProduct_resolved in H as (p & -> & -> & Hfresh).
  exists p. split; [done|]. split; [|split].
  - rewrite length_app. cbn [length]. lia.
  - by apply getProduct_first.
  - intros k' Hk. apply getProduct_filter.
    rewrite (filter_has_id_other k' st [] p) by congruence.
    by rewrite app_nil_r.
Qed.

Lemma create_then_get_witness :
  let p := mkProduct "u-1" "Pen" (inject_Z 3) "office" true 5 5 in
  getProduct (seeded ++ [p]) "u-1" = Resolved (fetched p)
  /\ getProduct (seeded ++ [p]) "2" = getProduct seeded "2".
Proof.
  intros p.
  destruct (create_then_get (mkAmbient 5 "u-1") seeded
              (<["name" := VStr "Pen"]>
                 (<["price" := VNum (inject_Z 3)]>
                    (<["category" := VStr "office"]> ∅)))
              (created p) (seeded ++ [p]))
    as (q & Hr & _ & Hg & Hother).
  - vm_compute. reflexivity.
  - injection Hr as <-. split; [exact Hg|]. apply Hother. discriminate.
Defined.

(** ** What a request can do to the collection *)

Lemma reading_resolved st r resp st' :
  reading st r = Resolved (resp, st') -> st' = st.
Proof. unfold reading. destruct r; cbn; [|done..]. by intros [= _ <-]. Qed.

Lemma NoDup_ids_snoc (st : Store) (p : Product) :
  NoDup (ids st) -> Forall (fun x => id x <> id p) st ->
  NoDup (ids (st ++ [p])).
Proof.
  unfold ids. intros Hnd Hfresh. rewrite fmap_app. apply NoDup_app.
  split; [done|]. split; [|apply NoDup_singleton].
  intros y Hy Hy'. apply list_elem_of_singleton in Hy' as ->.
  apply list_elem_of_fmap in Hy as (x & Hx & Hin).
  rewrite Forall_forall in Hfresh. by destruct (Hfresh x Hin).
Qed.

Lemma NoDup_ids_replace (before after : Store) (p p' : Product) :
  NoDup (ids (before ++ p :: after)) ->
  Forall (fun x => id x <> id p') (before ++ after) ->
  NoDup (ids (before ++ p' :: after)).
Proof.
  intros Hnd Hfresh. apply NoDup_ids_app_cons in Hnd as [_ Hnd].
  unfold ids in *. rewrite fmap_app in *. rewrite fmap_cons.
  apply NoDup_app in Hnd as (Hb & Hba & Ha).
  apply Forall_app in Hfresh as [Hfb Hfa].
  rewrite Forall_forall in Hfb, Hfa.
  apply NoDup_app. split; [done|]. split.
  - intros y Hy Hy'. apply elem_of_cons in Hy' as [-> | Hy']; [|by eapply Hba].
    apply list_elem_of_fmap in Hy as (x & Hx & Hin). by destruct (Hfb x Hin).
  - apply NoDup_cons. split; [|done].
    intros Hy. apply list_elem_of_fmap in Hy as (x & Hx & Hin).
    by destruct (Hfa x Hin).
Qed.

Lemma run_handler_keeps_ids_distinct h amb st req param resp st' :
  NoDup (ids st) ->
  run_handler h amb st req param = Resolved (resp, st') ->
  NoDup (ids st').
Proof.
  intros Hnd. destruct h; cbn [run_handler]; intros H;
    try (apply reading_resolved in H as ->; exact Hnd).
  - by injection H as _ <-.
  - apply createProduct_resolved in H as (p & _ & -> & Hfresh).
    by apply NoDup_ids_snoc.
  - apply updateProduct_resolved in H
      as (u & before & p & after & _ & -> & _ & _ & -> & _ & Huniq).
    by eapply NoDup_ids_replace.
  - apply deleteProduct_resolved in H
      as (before & p & after & -> & _ & _ & -> & _).
    by apply NoDup_ids_app_cons in Hnd as [_ ?].
Qed.

Lemma app_cases env amb st req f st' :
  app env amb st req = Some (f, st') ->
  st' = st
  \/ exists r param resp,
       dispatch (method req) (path req) = Some (r, param)
       /\ run_handler (r_handler r) amb st req param = Resolved (resp, st')
       /\ f = Sent resp.
Proof.
  unfold app.
  destruct (dispatch (method req) (path req)) as [[r param]|] eqn:Ed.
  - destruct (run_chain env req (r_chain r)); [|intros [= _ <-]; by left].
    unfold asyncHandler.
    destruct (run_handler (r_handler r) amb st req param)
      as [[resp st'']| |] eqn:Eh; [| |done].
    + intros [= <- <-]. right. by exists r, param, resp.
    + intros [= _ <-]. by left.
  - intros [= _ <-]. by left.
Qed.

Lemma seeded_ids_distinct (now : Z) : NoDup (ids (seedDatabase now [])).
Proof.
  unfold ids. cbn.
  repeat (apply NoDup_cons; split;
          [rewrite ?elem_of_cons, elem_of_nil; intros H;
           repeat (destruct H as [H | H]; [discriminate H|]); exact H |]).
  apply NoDup_nil_2.
Qed.

(** X11. The ids of the collection are distinct after the seeding of an
    empty database, and they stay distinct whatever requests follow. *)
Theorem ids_stay_distinct (env : Env) (st : Store) :
  reachable env st -> NoDup (ids st).
Proof.
  induction 1 as [now | amb st req f st' _ IH Happ].
  - apply seeded_ids_distinct.
  - apply app_cases in Happ as [-> | (r & param & resp & _ & Hh & _)];
      [done|].
    by eapply run_handler_keeps_ids_distinct.
Qed.

Lemma ids_stay_distinct_witness :
  let b : ReqBody := <["id" := VStr "99"]> ∅ in
  NoDup ["99"; "2"; "3"; "4"; "5"].
Proof.
  intros b.
  apply (ids_stay_distinct (mkEnv (Some "k") None)
           (mkProduct "99" "Laptop" (inject_Z 1200) "electronics" true 0 5
              :: skipn 1 seeded)).
  apply (reach_step _ (mkAmbient 5 "u") seeded (put "1" "k" b)
           (Sent (updated (mkProduct "99" "Laptop" (inject_Z 1200)
                                     "electronics" true 0 5)))).
  - apply (reach_seed _ 0).
  - vm_compute. reflexivity.
Defined.

Lemma dispatch_in_method rs m segs r param :
  dispatch_in rs m segs = Some (r, param) -> r_method r = m.
Proof.
  induction rs as [|x rs IH]; simpl; [done|].
  destruct (method_eqb (r_method x) m) eqn:Em; [|done].
  destruct (match_path (r_pattern x) segs); [|done].
  intros [= <- _]. by destruct (r_method x), m.
Qed.

Lemma run_handler_changes h amb st req param resp st' :
  run_handler h amb st req param = Resolved (resp, st') ->
  st' = st
  \/ (protected h = true /\ (statusCode resp = 200 \/ statusCode resp = 201)).
Proof.
  destruct h; cbn [run_handler]; intros H;
    try (apply reading_resolved in H as ->; by left).
  - injection H as _ <-. by left.
  - apply createProduct_resolved in H as (p & -> & _). right. by split; [|right].
  - apply updateProduct_resolved in H
      as (u & before & p & after & _ & _ & _ & _ & _ & -> & _).
    right. by split; [|left].
  - apply deleteProduct_resolved in H as (before & p & after & _ & _ & _ & _ & ->).
    right. by split; [|left].
Qed.

Lemma protected_not_GET (r : Route) :
  r ∈ routes -> protected (r_handler r) = true -> r_method r <> GET.
Proof.
  unfold routes. rewrite !elem_of_cons, elem_of_nil. intros H Hp.
  repeat (destruct H as [-> | H]; [cbn in Hp |- *; congruence |]).
  done.
Qed.

(** X12. A request changes the collection only when it is answered with
    200 or 201 by the create, update or delete route: a [GET] request,
    a request that is refused (400, 401, 404, 500) and a request on
    which the error-handling middleware throws all leave the collection
    as it was. *)
Theorem store_changes_only_on_success env amb st req f st' :
  app env amb st req = Some (f, st') ->
  st' <> st ->
  method req <> GET
  /\ exists resp,
       f = Sent resp /\ (statusCode resp = 200 \/ statusCode resp = 201).
Proof.
  intros Happ Hne.
  apply app_cases in Happ as [-> | (r & param & resp & Hd & Hh & ->)];
    [done|].
  apply run_handler_changes in Hh as [-> | [Hp Hs]]; [done|].
  split; [|by exists resp].
  unfold dispatch in Hd.
  rewrite <- (dispatch_in_method _ _ _ _ _ Hd).
  apply protected_not_GET; [|done]. by eapply dispatch_in_elem.
Qed.

Lemma store_changes_only_on_success_witness :
  method (delete_ "1" "k") <> GET
  /\ exists resp,
       Sent (deleted (mkProduct "1" "Laptop" (inject_Z 1200) "electronics"
                                true 0 0)) = Sent resp
       /\ (statusCode resp = 200 \/ statusCode resp = 201).
Proof.
  apply (store_changes_only_on_success (mkEnv (Some "k") None)
           (mkAmbient 5 "u") seeded (delete_ "1" "k") _ (skipn 1 seeded)).
  - vm_compute. reflexivity.
  - discriminate.
Defined.




(** ** Requests no route takes *)

Lemma dispatch_PATCH (segs : list string) : dispatch PATCH segs = None.
Proof. reflexivity. Qed.

(** X14. A request that no registered route takes, as is every [PATCH]
    request, is answered 404 with the message that names the requested
    URL, and the collection is as it was. *)
Theorem unmatched_route_not_found env amb st req :
  method req = PATCH \/ dispatch (method req) (path req) = None ->
  app env amb st req = Some (not_found env (cannot_find req), st).
Proof.
  intros H.
  assert (Hd : dispatch (method req) (path req) = None).
  { destruct H as [-> | H]; [apply dispatch_PATCH | exact H]. }
  unfold app. rewrite Hd. by rewrite errorHandler_NotFound.
Qed.

Lemma unmatched_route_not_found_witness :
  app (mkEnv None None) (mkAmbient 5 "u") seeded
      (get ["api"; "orders"] "/api/orders" ∅) =
    Some (Sent (mkResponse 404
            (ErrorBody (VStr "error") "Cannot find /api/orders on this server"
                       None None)), seeded).
Proof.
  apply (unmatched_route_not_found (mkEnv None None) (mkAmbient 5 "u") seeded
           (get ["api"; "orders"] "/api/orders" ∅)).
  right. vm_compute. reflexivity.
Defined.

(** ** When the error-handling middleware throws *)

(** X15. The error-handling middleware throws, instead of answering,
    exactly when the error is named [ValidationError] and has no
    [errors] map.  Every error built by the [ValidationError] class of
    the server is of this kind, whatever its message; the errors built
    by [NotFoundError] and [AuthenticationError] are answered with their
    status code. *)
Theorem errorHandler_throws_iff (env : Env) (err : JsError) :
  ((exists e, errorHandler env err = Uncaught e) <->
     e_name err = "ValidationError" /\ e_errors err = None)
  /\ (forall m, errorHandler env (ValidationError m) = Uncaught TypeError_values)
  /\ (forall m, exists body,
        errorHandler env (NotFoundError m) = Sent (mkResponse 404 body))
  /\ (forall m, exists body,
        errorHandler env (AuthenticationError m) = Sent (mkResponse 401 body)).
Proof.
  split; [|split; [done|split]].
  - split.
    + intros [e He]. unfold errorHandler in He.
      destruct (String.eqb (e_name err) "ValidationError") eqn:En.
      * apply String.eqb_eq in En. split; [done|].
        destruct (e_errors err); [|done].
        by destruct (String.eqb (e_name err) "CastError").
      * by destruct (String.eqb (e_name err) "CastError").
    + intros [Hn He]. unfold errorHandler. rewrite Hn, He. by eexists.
  - intros m. rewrite errorHandler_NotFound. by eexists.
  - intros m. rewrite errorHandler_plain by (cbn; discriminate). by eexists.
Qed.

(** ** Walking the pages of a listing *)

Lemma length_sort_by_name (tie : Product -> nat) (l : list Product) :
  length (sort_by tie NameAsc l) = length l.
Proof. apply Permutation_length, sort_by_name_perm. Qed.

Lemma items_of_page (amb : Ambient) (st : Store)
    (query : gmap string string) (P L : Z) :
  Num.parseInt_or (query !! "page") 1 = Some (Int P) ->
  Num.parseInt_or (query !! "limit") 10 = Some (Int L) ->
  1 <= P -> 1 <= L -> (P - 1) * L <= 2 ^ 53 ->
  items_of (listProducts amb st query) = page_items (tie amb) st query P L.
Proof.
  intros HP HL HP1 HL1 Hs. by rewrite (listProducts_page amb st query P L).
Qed.

(** X16. For [page] and [limit] read as integers [P >= 1] and [L >= 1]
    in the range in which the numbers of the handler are exact, with
    [(P - 1) * L] in that range too: every page before the last reported
    page holds exactly [L] products, the last page holds the remaining
    ones and is not empty, and a page past the last is empty. *)
Theorem pages_fill_up (amb : Ambient) (st : Store)
    (query : gmap string string) (P L : Z) :
  Num.parseInt_or (query !! "page") 1 = Some (Int P) ->
  Num.parseInt_or (query !! "limit") 10 = Some (Int L) ->
  1 <= P -> 1 <= L -> (P - 1) * L <= 2 ^ 53 ->
  exists n pages total items,
    listProducts amb st query =
      Resolved (mkResponse 200
        (ListBody n (mkPagination (Int P) (Int pages) total (Int L)) items))
    /\ n = length items
    /\ (P < pages -> Z.of_nat n = L)
    /\ (P = pages -> Z.of_nat n = total - (P - 1) * L /\ items <> [])
    /\ (pages < P -> items = []).
Proof.
  intros HP HL HP1 HL1 Hs.
  set (total := Z.of_nat (length (List.filter (wanted query) st))).
  destruct (ceil_div_bounds total L HL1) as [pages [Hc Hb]].
  exists (length (page_items (tie amb) st query P L)), pages, total,
    (page_items (tie amb) st query P L).
  split.
  { rewrite (listProducts_page amb st query P L) by done.
    fold total. by rewrite Hc. }
  split; [done|].
  assert (Hlen : Z.of_nat (length (page_items (tie amb) st query P L)) =
                 Z.min L (Z.max 0 (total - (P - 1) * L))).
  { unfold page_items. rewrite length_take, length_drop, length_sort_by_name.
    fold total. unfold total. nia. }
  split; [|split].
  - intros Hlt. rewrite Hlen. nia.
  - intros ->. split; [rewrite Hlen; nia|].
    intros Hnil. rewrite Hnil in Hlen. cbn in Hlen. nia.
  - intros Hgt. apply length_zero_iff_nil.
    apply Nat2Z.inj. rewrite Hlen. nia.
Qed.

Lemma pages_fill_up_witness :
  exists n pages total items,
    listProducts (mkAmbient 0 "u") seeded
                 (<["page" := "3"]> (<["limit" := "2"]> ∅)) =
      Resolved (mkResponse 200
        (ListBody n (mkPagination (Int 3) (Int pages) total (Int 2)) items))
    /\ n = length items
    /\ (3 = pages -> Z.of_nat n = total - (3 - 1) * 2 /\ items <> []).
Proof.
  destruct (pages_fill_up (mkAmbient 0 "u") seeded
              (<["page" := "3"]> (<["limit" := "2"]> ∅)) 3 2)
    as (n & pages & total & items & H & Hn & _ & Hlast & _).
  - vm_compute. reflexivity.
  - vm_compute. reflexivity.
  - lia.
  - lia.
  - lia.
  - exists n, pages, total, items. split; [exact H|]. split; [exact Hn|exact Hlast].
Defined.

Lemma take_app_take_drop {A} (l : list A) (n k : nat) :
  take n l ++ take k (drop n l) = take (n + k) l.
Proof.
  revert l. induction n as [|n IH]; intros l; [done|].
  destruct l as [|x l].
  - by rewrite drop_nil, !take_nil.
  - cbn [take drop Nat.add]. rewrite <- app_comm_cons. f_equal. apply IH.
Qed.

Lemma wanted_ext (q1 q2 : gmap string string) :
  q1 !! "category" = q2 !! "category" ->
  q1 !! "inStock" = q2 !! "inStock" ->
  forall p, wanted q1 p = wanted q2 p.
Proof. intros Hc Hs p. unfold wanted. by rewrite Hc, Hs. Qed.

Lemma NoDup_names_inj (l : list Product) (x y : Product) :
  NoDup (name <$> l) -> x ∈ l -> y ∈ l -> name x = name y -> x = y.
Proof.
  induction l as [|z l IH]; [by intros _ Hx; apply elem_of_nil in Hx|].
  rewrite fmap_cons, NoDup_cons, !elem_of_cons.
  intros [Hz Hnd] [-> | Hx] [-> | Hy] Hn; [done | | |by apply IH].
  - destruct Hz. rewrite Hn. by apply list_elem_of_fmap_2.
  - destruct Hz. rewrite <- Hn. by apply list_elem_of_fmap_2.
Qed.

Lemma name_le_antisym (p q : Product) :
  name_le p q -> name_le q p -> name p = name q.
Proof.
  unfold name_le, String.leb.
  destruct (String.compare (name p) (name q)) eqn:E.
  - intros _ _. by apply String.compare_eq_iff.
  - rewrite String.compare_antisym, E. cbn. by intros _ [].
  - by intros [].
Qed.

(** Among products of distinct names the order of a sorted listing does
    not depend on the ranking the store uses for equal names. *)
Lemma sort_by_name_unique (t1 t2 : Product -> nat) (l : list Product) :
  NoDup (name <$> l) ->
  sort_by t1 NameAsc l = sort_by t2 NameAsc l.
Proof.
  intros Hnd.
  apply (StronglySorted_unique_strong name_le);
    [|apply sort_by_name_sorted|apply sort_by_name_sorted|].
  - intros x y Hx Hy Hxy Hyx.
    apply (NoDup_names_inj l); [done| | |by apply name_le_antisym].
    + by rewrite <- (sort_by_name_perm t1 l).
    + by rewrite <- (sort_by_name_perm t2 l).
  - by rewrite !sort_by_name_perm.
Qed.

(** X17. Two list requests on the same collection, with the same filters
    and the same limit [L >= 1], for the pages [P >= 1] and [P + 1],
    with [P * L] in the range in which the numbers of the handler are
    exact: when the matching products have distinct names, the two
    answers are adjacent stretches of the matching products sorted by
    name; together, the [2 * L] products after the first [(P - 1) * L],
    whatever order the store would choose among equal names in either
    request. *)
Theorem consecutive_pages_are_adjacent (amb1 amb2 : Ambient)
    (t : Product -> nat) (st : Store)
    (q1 q2 : gmap string string) (P L : Z) :
  q1 !! "category" = q2 !! "category" ->
  q1 !! "inStock" = q2 !! "inStock" ->
  Num.parseInt_or (q1 !! "page") 1 = Some (Int P) ->
  Num.parseInt_or (q2 !! "page") 1 = Some (Int (P + 1)) ->
  Num.parseInt_or (q1 !! "limit") 10 = Some (Int L) ->
  Num.parseInt_or (q2 !! "limit") 10 = Some (Int L) ->
  1 <= P -> 1 <= L -> P * L <= 2 ^ 53 ->
  NoDup (name <$> List.filter (wanted q1) st) ->
  items_of (listProducts amb1 st q1) ++ items_of (listProducts amb2 st q2) =
    take (Z.to_nat (2 * L))
         (drop (Z.to_nat ((P - 1) * L))
               (sort_by t NameAsc (List.filter (wanted q1) st))).
Proof.
  intros Hc Hs HP1 HP2 HL1 HL2 HP HL Hr Hnd.
  rewrite (items_of_page amb1 st q1 P L), (items_of_page amb2 st q2 (P + 1) L)
    by (done || lia).
  unfold page_items.
  rewrite <- (filter_ext_bool _ _ st (wanted_ext q1 q2 Hc Hs)).
  rewrite (sort_by_name_unique (tie amb1) t), (sort_by_name_unique (tie amb2) t)
    by done.
  replace (Z.to_nat ((P + 1 - 1) * L))
    with (Z.to_nat ((P - 1) * L) + Z.to_nat L)%nat by nia.
  rewrite <- drop_drop, take_app_take_drop.
  f_equal. lia.
Qed.

Lemma consecutive_pages_are_adjacent_witness :
  items_of (listProducts (mkAmbient 0 "u") seeded
              (<["page" := "1"]> (<["limit" := "2"]> ∅)))
  ++ items_of (listProducts
                 (mkAmbientWith 1 "v" (fun p => String.length (name p)))
                 seeded (<["page" := "2"]> (<["limit" := "2"]> ∅)))
  = take 4 (sort_by unsorted NameAsc seeded).
Proof.
  etrans.
  - apply (consecutive_pages_are_adjacent (mkAmbient 0 "u")
             (mkAmbientWith 1 "v" (fun p => String.length (name p)))
             unsorted seeded
             (<["page" := "1"]> (<["limit" := "2"]> ∅))
             (<["page" := "2"]> (<["limit" := "2"]> ∅)) 1 2);
      first [lia | vm_compute; reflexivity | idtac].
    vm_compute.
    repeat (constructor; [rewrite ?elem_of_cons, elem_of_nil;
                          intros H; repeat destruct H as [H | H];
                          discriminate || done |]).
    constructor.
  - vm_compute. reflexivity.
Defined.

(** ** Search and the case of letters *)

Lemma lower_string_nonempty (q : string) : q <> "" -> lower_string q <> "".
Proof.
  intros Hq H. apply (f_equal list_ascii_of_string) in H.
  rewrite list_ascii_of_lower_string in H. by destruct q.
Qed.

(** X18. Two search requests whose queries are non-empty strings of
    ASCII characters other than NUL, none of which is special in a
    pattern, and differ only in the case of their letters return the
    same products: those whose name contains the query without regard
    to case. *)
Theorem search_ignores_case_of_query (st : Store)
    (query1 query2 : gmap string string) (q1 q2 : string) :
  query1 !! "q" = Some q1 -> query2 !! "q" = Some q2 ->
  q1 <> "" -> literal q1 = true -> literal q2 = true ->
  lower_string q1 = lower_string q2 ->
  matches_of (searchProducts st query1) = matches_of (searchProducts st query2)
  /\ matches_of (searchProducts st query1) =
       List.filter (fun p => contains_cib (name p) q1) st.
Proof.
  intros H1 H2 Hne Hl1 Hl2 Hlow.
  assert (Hne2 : q2 <> "").
  { intros ->. apply (lower_string_nonempty q1 Hne). by rewrite Hlow. }
  rewrite (searchProducts_literal st query1 q1), (searchProducts_literal st query2 q2)
    by done.
  cbn [matches_of]. split; [|done].
  apply filter_ext_bool. intros p. unfold contains_cib. by rewrite Hlow.
Qed.

Lemma search_ignores_case_of_query_witness :
  matches_of (searchProducts seeded (<["q" := "LAPTOP"]> ∅)) =
    matches_of (searchProducts seeded (<["q" := "laptop"]> ∅)).
Proof.
  apply (search_ignores_case_of_query seeded (<["q" := "LAPTOP"]> ∅)
           (<["q" := "laptop"]> ∅) "LAPTOP" "laptop");
    first [discriminate | vm_compute; reflexivity].
Defined.

(** ** The figures of the statistics *)

Lemma statistics_resolved (st : Store) :
  statistics st =
    Resolved (mkResponse 200
      (StatsBody (mkStatistics (Z.of_nat (length st))
         (Z.of_nat (length (List.filter (stored_is true) st)))
         (Z.of_nat (length (List.filter (stored_is false) st)))
         (priceStats st) (categoryStats st)))).
Proof.
  unfold statistics.
  by rewrite countDocuments_all, !countDocuments_inStock.
Qed.

#[local] Instance count_ge_total : Total count_ge.
Proof. intros a b. unfold count_ge. lia. Qed.

#[local] Instance count_ge_trans : Transitive count_ge.
Proof. intros a b c. unfold count_ge. lia. Qed.

Lemma sum_counts_perm (l l' : list CategoryStat) :
  l ≡ₚ l' -> sum_counts l = sum_counts l'.
Proof.
  unfold sum_counts.
  induction 1 as [|x l l' _ IH|x y l|l l' l'' _ IH1 _ IH2]; cbn; lia.
Qed.

Lemma cs_count_group (st : Store) (c : string) :
  cs_count (group st c) = in_category st c.
Proof. unfold group, in_category. cbn. by rewrite length_fmap. Qed.

Lemma sum_counts_cons (x : CategoryStat) (l : list CategoryStat) :
  sum_counts (x :: l) = cs_count x + sum_counts l.
Proof. reflexivity. Qed.

Lemma sum_counts_group_cons (cats : list string) (p : Product) (st : Store) :
  sum_counts (group (p :: st) <$> cats) =
    sum_counts (group st <$> cats)
    + Z.of_nat (length (List.filter (String.eqb (category p)) cats)).
Proof.
  induction cats as [|c cats IH]; [done|].
  rewrite !fmap_cons, !sum_counts_cons, IH.
  rewrite !cs_count_group. unfold in_category. cbn [List.filter].
  destruct (String.eqb (category p) c); cbn [length]; lia.
Qed.

Lemma filter_eqb_NoDup (cats : list string) (c : string) :
  NoDup cats -> c ∈ cats -> length (List.filter (String.eqb c) cats) = 1%nat.
Proof.
  induction 1 as [|x cats Hx Hnd IH]; [by intros ?%elem_of_nil|].
  cbn [List.filter]. intros Hin.
  destruct (String.eqb c x) eqn:E.
  - apply String.eqb_eq in E as ->. cbn [length]. f_equal.
    apply length_zero_iff_nil, filter_none.
    apply Forall_forall. intros y Hy. apply String.eqb_neq. by intros ->.
  - apply String.eqb_neq in E.
    apply elem_of_cons in Hin as [-> | Hin]; [done | by apply IH].
Qed.

Lemma sum_counts_group_nil (cats : list string) :
  sum_counts (group [] <$> cats) = 0.
Proof.
  induction cats as [|c cats IH]; [done|].
  by rewrite fmap_cons, sum_counts_cons, IH.
Qed.

Lemma sum_counts_groups (cats : list string) (st : Store) :
  NoDup cats -> (forall p, p ∈ st -> category p ∈ cats) ->
  sum_counts (group st <$> cats) = Z.of_nat (length st).
Proof.
  intros Hnd. induction st as [|p st IH]; intros Hin.
  - apply sum_counts_group_nil.
  - rewrite sum_counts_group_cons, IH.
    + rewrite filter_eqb_NoDup; [cbn [length]; lia | done |].
      apply Hin. left.
    + intros q Hq. apply Hin. by right.
Qed.

(** X19. In the answer of the statistics handler, the per-category
    breakdown has one entry for each category that occurs in the
    collection and no other, in descending order of count; the count of
    an entry is the number of products of its category, which is at
    least one, and the counts add up to the total number of products. *)
Theorem statistics_breakdown (st : Store) :
  exists s,
    statistics st = Resolved (mkResponse 200 (StatsBody s))
    /\ sum_counts (st_categoryBreakdown s) = st_totalProducts s
    /\ StronglySorted count_ge (st_categoryBreakdown s)
    /\ NoDup (cs_id <$> st_categoryBreakdown s)
    /\ (forall c, c ∈ cs_id <$> st_categoryBreakdown s <->
                  exists p, p ∈ st /\ category p = c)
    /\ (forall g, g ∈ st_categoryBreakdown s ->
          cs_count g = in_category st (cs_id g)
          /\ 0 < cs_count g).
Proof.
  eexists. split; [apply statistics_resolved|].
  cbn [st_categoryBreakdown st_totalProducts].
  set (cats := remove_dups (category <$> st)).
  assert (Hperm : categoryStats st ≡ₚ group st <$> cats)
    by apply merge_sort_Permutation.
  assert (Hnd : NoDup cats) by apply NoDup_remove_dups.
  assert (Hcats : forall c, c ∈ cats <-> exists p, p ∈ st /\ category p = c).
  { intros c. unfold cats. rewrite elem_of_remove_dups, list_elem_of_fmap.
    split; intros (p & ? & ?); by exists p. }
  assert (Hids : cs_id <$> categoryStats st ≡ₚ cats).
  { rewrite Hperm. clear. induction cats as [|c cats IH]; [done|].
    rewrite !fmap_cons. by constructor. }
  split; [|split; [|split; [|split]]].
  - rewrite (sum_counts_perm _ _ Hperm). apply sum_counts_groups; [done|].
    intros p Hp. apply Hcats. by exists p.
  - apply StronglySorted_merge_sort; apply _.
  - by rewrite Hids.
  - intros c. by rewrite Hids.
  - intros g Hg. rewrite Hperm in Hg.
    apply list_elem_of_fmap in Hg as (c & -> & Hc).
    rewrite cs_count_group. cbn [cs_id group].
    apply Hcats in Hc as (p & Hp & Hpc).
    assert (Hpos : 0 < in_category st c).
    { unfold in_category.
      assert (Hin : p ∈ List.filter (fun p => String.eqb (category p) c) st).
      { apply list_elem_of_In, filter_In. split; [by apply list_elem_of_In|].
        by apply String.eqb_eq. }
      destruct (List.filter _ st); [by apply elem_of_nil in Hin|].
      cbn [length]. lia. }
    by split.
Qed.

Lemma Qmin2_cases (a b : Q) :
  (Qmin2 a b = a /\ (a <= b)%Q) \/ (Qmin2 a b = b /\ (b <= a)%Q).
Proof.
  unfold Qmin2. destruct (Qle_bool a b) eqn:E.
  - left. split; [done | by apply Qle_bool_iff].
  - right. split; [done|]. apply Qlt_le_weak, Qnot_le_lt.
    intros H. apply Qle_bool_iff in H. congruence.
Qed.

Lemma Qmax2_cases (a b : Q) :
  (Qmax2 a b = b /\ (a <= b)%Q) \/ (Qmax2 a b = a /\ (b <= a)%Q).
Proof.
  unfold Qmax2. destruct (Qle_bool a b) eqn:E.
  - left. split; [done | by apply Qle_bool_iff].
  - right. split; [done|]. apply Qlt_le_weak, Qnot_le_lt.
    intros H. apply Qle_bool_iff in H. congruence.
Qed.

Lemma fold_Qmin2 (l : list Q) (q : Q) :
  fold_left Qmin2 l q ∈ q :: l
  /\ forall x, x ∈ q :: l -> (fold_left Qmin2 l q <= x)%Q.
Proof.
  revert q. induction l as [|y l IH]; intros q; cbn [fold_left].
  - split; [left|]. intros x Hx. apply list_elem_of_singleton in Hx as ->.
    apply Qle_refl.
  - destruct (IH (Qmin2 q y)) as [Hin Hle]. split.
    + apply elem_of_cons in Hin as [-> | Hin]; [|by do 2 right].
      destruct (Qmin2_cases q y) as [[-> _] | [-> _]]; [left | right; left].
    + intros x Hx.
      assert (Hm : (fold_left Qmin2 l (Qmin2 q y) <= Qmin2 q y)%Q)
        by (apply Hle; left).
      rewrite !elem_of_cons in Hx. destruct Hx as [-> | [-> | Hx]].
      * eapply Qle_trans; [exact Hm|].
        destruct (Qmin2_cases q y) as [[-> _] | [-> ?]];
          [apply Qle_refl | done].
      * eapply Qle_trans; [exact Hm|].
        destruct (Qmin2_cases q y) as [[-> ?] | [-> _]];
          [done | apply Qle_refl].
      * apply Hle. by right.
Qed.

Lemma fold_Qmax2 (l : list Q) (q : Q) :
  fold_left Qmax2 l q ∈ q :: l
  /\ forall x, x ∈ q :: l -> (x <= fold_left Qmax2 l q)%Q.
Proof.
  revert q. induction l as [|y l IH]; intros q; cbn [fold_left].
  - split; [left|]. intros x Hx. apply list_elem_of_singleton in Hx as ->.
    apply Qle_refl.
  - destruct (IH (Qmax2 q y)) as [Hin Hle]. split.
    + apply elem_of_cons in Hin as [-> | Hin]; [|by do 2 right].
      destruct (Qmax2_cases q y) as [[-> _] | [-> _]]; [right; left | left].
    + intros x Hx.
      assert (Hm : (Qmax2 q y <= fold_left Qmax2 l (Qmax2 q y))%Q)
        by (apply Hle; left).
      rewrite !elem_of_cons in Hx. destruct Hx as [-> | [-> | Hx]].
      * eapply Qle_trans; [|exact Hm].
        destruct (Qmax2_cases q y) as [[-> ?] | [-> _]];
          [done | apply Qle_refl].
      * eapply Qle_trans; [|exact Hm].
        destruct (Qmax2_cases q y) as [[-> _] | [-> ?]];
          [apply Qle_refl | done].
      * apply Hle. by right.
Qed.

(** X20. In the answer of the statistics handler the price statistics
    are empty exactly when the collection is empty; otherwise the
    minimum and the maximum are prices of products of the collection
    and every price lies between them. *)
Theorem statistics_price_bounds (st : Store) :
  exists s,
    statistics st = Resolved (mkResponse 200 (StatsBody s))
    /\ (st_priceStatistics s = None <-> st = [])
    /\ (forall ps, st_priceStatistics s = Some ps ->
          (exists p, p ∈ st /\ price p = minPrice ps)
          /\ (exists p, p ∈ st /\ price p = maxPrice ps)
          /\ (forall p, p ∈ st ->
                (minPrice ps <= price p)%Q /\ (price p <= maxPrice ps)%Q)).
Proof.
  eexists. split; [apply statistics_resolved|].
  cbn [st_priceStatistics]. unfold priceStats.
  destruct st as [|p0 st]; [by split|].
  rewrite fmap_cons. split; [by split|].
  intros ps [= <-]. cbn [minPrice maxPrice averagePrice].
  destruct (fold_Qmin2 (price <$> st) (price p0)) as [Hmin Hlmin].
  destruct (fold_Qmax2 (price <$> st) (price p0)) as [Hmax Hlmax].
  rewrite <- fmap_cons in Hmin, Hmax, Hlmin, Hlmax.
  split; [|split].
  - apply list_elem_of_fmap in Hmin as (p & Hp & Hin). by exists p.
  - apply list_elem_of_fmap in Hmax as (p & Hp & Hin). by exists p.
  - intros p Hp. split.
    + apply Hlmin. by apply list_elem_of_fmap_2.
    + apply Hlmax. by apply list_elem_of_fmap_2.
Qed.

(** ** Refusals by the validators on the write routes *)

(** X21. With an accepted key, a create request whose payload
    [validateProduct] does not accept, and an update request whose
    payload [validateProductUpdate] does not accept, are answered 400
    with a list of messages that is not empty, before the handler runs:
    the collection is as it was. *)
Theorem invalid_payload_refused env amb st key apiKey b :
  accepted_key env apiKey ->
  (~ well_formed b ->
   exists errors,
     errors <> []
     /\ app env amb st (post_products apiKey b) =
          Some (Sent (mkResponse 400
                  (ErrorBody (VStr "error") "Validation failed" (Some errors)
                             None)), st))
  /\ (~ well_formed_update b ->
      exists errors,
        errors <> []
        /\ app env amb st (put key apiKey b) =
             Some (Sent (mkResponse 400
                     (ErrorBody (VStr "error") "Validation failed"
                                (Some errors) None)), st)).
Proof.
  intros Hacc. split; intros Hbad.
  - exists (validateProduct_errors b).
    assert (Hne : validateProduct_errors b <> []).
    { intros H. apply Hbad, validateProduct_Next_iff.
      unfold validateProduct. by rewrite H. }
    split; [done|].
    rewrite app_post_products, (authenticate_accepted _ _ Hacc).
    unfold validateProduct. by destruct (validateProduct_errors b).
  - exists (validateProductUpdate_errors b).
    assert (Hne : validateProductUpdate_errors b <> []).
    { intros H. apply Hbad.
      apply validateProductUpdate_Next_iff.
      unfold validateProductUpdate. by rewrite H. }
    split; [done|].
    rewrite app_put, (authenticate_accepted _ _ Hacc).
    unfold validateProductUpdate. by destruct (validateProductUpdate_errors b).
Qed.

Lemma invalid_payload_refused_witness :
  exists errors,
    errors <> []
    /\ app (mkEnv (Some "k") None) (mkAmbient 5 "u") seeded
           (put "1" "k" (<["price" := VStr "free"]> ∅)) =
         Some (Sent (mkResponse 400
                 (ErrorBody (VStr "error") "Validation failed" (Some errors)
                            None)), seeded).
Proof.
  destruct (invalid_payload_refused (mkEnv (Some "k") None) (mkAmbient 5 "u")
              seeded "1" "k" (<["price" := VStr "free"]> ∅)) as [_ H].
  - split; [discriminate | by left].
  - apply H. intros (_ & [Hp | (q & Hp & _)] & _); vm_compute in Hp; discriminate.
Defined.

(** ** What a listing can contain *)

Lemma apply_skip_subseteq n (l l' : list Product) :
  apply_skip n l = Some l' -> l' `sublist_of` l.
Proof.
  destruct n as [[|z|]|]; cbn; try done.
  - destruct (0 <=? z); [|done]. intros [= <-]. apply sublist_drop.
  - by intros [= <-].
Qed.

Lemma apply_limit_subseteq n (l l' : list Product) :
  apply_limit n l = Some l' -> l' `sublist_of` l.
Proof.
  destruct n as [[|z|]|]; cbn; try done.
  - destruct (z =? 0); [by intros [= <-]|].
    destruct (0 <? z); [|done]. intros [= <-]. apply sublist_take.
  - by intros [= <-].
Qed.

Lemma StronglySorted_sublist {A} (R : relation A) (l l' : list A) :
  l' `sublist_of` l -> StronglySorted R l -> StronglySorted R l'.
Proof.
  induction 1 as [|x l1 l2 Hsub IH|x l1 l2 Hsub IH]; intros Hs; [done|..].
  - apply StronglySorted_inv in Hs as [Hs Hall].
    constructor; [by apply IH|].
    apply Forall_forall. intros y Hy. rewrite Forall_forall in Hall.
    apply Hall. by apply (sublist_subseteq _ _ Hsub).
  - apply StronglySorted_inv in Hs as [Hs _]. by apply IH.
Qed.

(** X22. Whatever the [page] and [limit] parameters are, the products a
    list request returns are in ascending order of name, each of them is
    in the collection, and each of them matches the [category] and
    [inStock] filters of the request. *)
Theorem listing_respects_filter (amb : Ambient) (st : Store)
    (query : gmap string string) :
  StronglySorted name_le (items_of (listProducts amb st query))
  /\ forall p, p ∈ items_of (listProducts amb st query) ->
       p ∈ st /\ wanted query p = true.
Proof.
  unfold listProducts.
  destruct (Num.parseInt_or (query !! "page") 1) as [page|];
    [|split; [constructor | by intros p ?%elem_of_nil]].
  destruct (Num.parseInt_or (query !! "limit") 10) as [limit|];
    [|split; [constructor | by intros p ?%elem_of_nil]].
  cbn [covered await].
  destruct (Num.pred_times page limit) as [skip|];
    [|split; [constructor | by intros p ?%elem_of_nil]].
  cbn [covered await].
  destruct (list_filter_test query) as [t [Ht Hw]]. cbv zeta in Ht.
  unfold countDocuments, exec.
  cbn [with_sort with_skip with_limit find q_filter q_limit q_skip q_sort].
  rewrite Ht. cbn [covered await].
  rewrite (filter_ext_bool t (wanted query) st Hw).
  set (sorted := sort_by (tie amb) NameAsc (List.filter (wanted query) st)).
  destruct (apply_skip _ sorted) as [rows|] eqn:Es;
    [|split; [constructor | by intros p ?%elem_of_nil]].
  cbn [covered await].
  destruct (apply_limit _ rows) as [rows'|] eqn:El;
    [|split; [constructor | by intros p ?%elem_of_nil]].
  cbn [covered await items_of].
  apply apply_skip_subseteq in Es. apply apply_limit_subseteq in El.
  assert (Hsub : rows' `sublist_of` sorted) by (by etrans).
  split.
  - eapply StronglySorted_sublist; [exact Hsub|]. apply sort_by_name_sorted.
  - intros p Hp. apply (sublist_subseteq _ _ Hsub) in Hp.
    unfold sorted in Hp. rewrite sort_by_name_perm in Hp.
    apply list_elem_of_In, filter_In in Hp as [Hp Hwp].
    by apply list_elem_of_In in Hp.
Qed.

(** ** Composition of the write routes *)

(** X23. Deleting the product that a successful create has just added
    gives back that product and the collection as it was before the
    create. *)
Theorem create_then_delete amb st b resp st' :
  createProduct amb st b = Resolved (resp, st') ->
  exists p,
    resp = created p
    /\ deleteProduct st' (id p) = Resolved (deleted p, st).
Proof.
  intros H. apply createProduct_resolved in H as (p & -> & -> & Hfresh).
  exists p. split; [done|].
  rewrite (deleteProduct_first st [] p Hfresh). by rewrite app_nil_r.
Qed.

Lemma create_then_delete_witness :
  let p := mkProduct "u-1" "Pen" (inject_Z 3) "office" true 5 5 in
  deleteProduct (seeded ++ [p]) "u-1" = Resolved (deleted p, seeded).
Proof.
  intros p.
  destruct (create_then_delete (mkAmbient 5 "u-1") seeded
              (<["name" := VStr "Pen"]>
                 (<["price" := VNum (inject_Z 3)]>
                    (<["category" := VStr "office"]> ∅)))
              (created p) (seeded ++ [p]))
    as (q & Hr & Hd).
  - vm_compute. reflexivity.
  - injection Hr as <-. exact Hd.
Defined.

Lemma assoc_NoDup (k : string) (v : value) (fs : list (string * value)) :
  NoDup (fst <$> fs) -> (k, v) ∈ fs -> assoc k fs = Some v.
Proof.
  induction fs as [|[k' v'] fs IH]; [by intros _ ?%elem_of_nil|].
  rewrite fmap_cons, NoDup_cons, elem_of_cons. cbn [fst assoc].
  intros [Hk' Hnd] [[= -> ->] | Hin].
  - by rewrite String.eqb_refl.
  - destruct (String.eqb k' k) eqn:E; [|by apply IH].
    apply String.eqb_eq in E as ->. destruct Hk'.
    by apply (list_elem_of_fmap_2 fst) in Hin.
Qed.

Lemma operand_NoDup (b : ReqBody) (op : string) fs :
  operand b op = Some fs -> NoDup (fst <$> fs).
Proof.
  unfold operand. destruct (b !! op) as [[| | | |[|f l]|]|]; try done.
  - case_bool_decide; [|done]. by intros [= <-].
  - intros [= <-]. constructor.
Qed.

(** A covered update document that gives [id] a string sets the id to
    this string. *)
Lemma cast_update_sets_id (b : ReqBody) (u : Update) (i : string) :
  cast_update b = Some u -> sets_to b "id" (VStr i) -> u_id u = Put i.
Proof.
  unfold cast_update.
  destruct (operand b "$set") as [sets|] eqn:Es; [|done].
  destruct (operand b "$unset") as [unsets|] eqn:Eu; [|done].
  pose proof (operand_NoDup _ _ _ Es) as Hnd.
  apply operand_spec in Es.
  match goal with
  | |- context [if ?c then None else _] => destruct c eqn:Ec; [done|]
  end.
  rewrite !orb_false_iff in Ec.
  destruct Ec as (((_ & Hconf) & _) & _).
  intros Hu Hset.
  assert (Hs : setting b sets "id" = Some (VStr i)).
  { unfold setting. destruct Hset as [-> | (fs & Hfs & Hin)]; [done|].
    assert (fs = sets) as -> by (destruct Es as [[? _] | ?]; congruence).
    apply (existsb_false _ _ "id") in Hconf;
      [|rewrite elem_of_app; left; by apply (list_elem_of_fmap_2 fst) in Hin].
    cbv beta in Hconf. destruct (b !! "id"); [done|].
    by apply assoc_NoDup. }
  rewrite Hs in Hu. destruct i as [|a i]; [done|]. cbn [cast_String] in Hu.
  destruct (cast_String (setting b sets "name")); [|done].
  destruct (cast_Number (setting b sets "price")); [|done].
  destruct (cast_String (setting b sets "category")); [|done].
  destruct (cast_Boolean (setting b sets "inStock")); [|done].
  by injection Hu as <-.
Qed.

(** X24. An update that gives [id], at top level or under [$set], the id
    of another product of the collection is refused by the unique
    index: with an accepted key and a payload that passes validation and
    that the schema takes as an update document (plain fields and the
    operators [$set] and [$unset], each path of the schema given a value
    of its type), the answer has status 500 and the collection is as it
    was. *)
Theorem update_to_taken_id env amb apiKey b before p after i :
  accepted_key env apiKey ->
  validateProductUpdate b = Next ->
  is_Some (cast_update b) ->
  Forall (fun x => id x <> id p) before ->
  sets_to b "id" (VStr i) ->
  Exists (fun x => id x = i) (before ++ after) ->
  exists body,
    app env amb (before ++ p :: after) (put (id p) apiKey b) =
      Some (Sent (mkResponse 500 body), before ++ p :: after).
Proof.
  intros Hacc Hv [u Hu] Hb Hi Hdup.
  rewrite app_put, (authenticate_accepted _ _ Hacc), Hv.
  unfold updateProduct, findOneAndUpdate.
  rewrite Hu. cbn [covered await].
  rewrite (split_first_app _ before after p (Forall_has_id_false _ _ Hb))
    by by apply has_id_spec.
  cbv zeta.
  assert (Hid : id (apply_update u (now amb) p) = i).
  { unfold apply_update. cbn [id].
    by rewrite (cast_update_sets_id b u i Hu Hi). }
  rewrite Hid.
  destruct (existsb (has_id i) (before ++ after)) eqn:E.
  - cbn [await asyncHandler].
    rewrite errorHandler_plain by (cbn; discriminate). by eexists.
  - apply existsb_has_id_false in E.
    apply Exists_exists in Hdup as (x & Hx & Hxi).
    rewrite Forall_forall in E. by destruct (E x Hx).
Qed.

Lemma update_to_taken_id_witness :
  exists body,
    app (mkEnv (Some "k") None) (mkAmbient 5 "u") seeded
        (put "1" "k" (<["$set" := VObject [("id", VStr "2")]]> ∅)) =
      Some (Sent (mkResponse 500 body), seeded).
Proof.
  apply (update_to_taken_id (mkEnv (Some "k") None) (mkAmbient 5 "u") "k"
           (<["$set" := VObject [("id", VStr "2")]]> ∅) []
           (mkProduct "1" "Laptop" (inject_Z 1200) "electronics" true 0 0)
           (skipn 1 seeded) "2").
  - split; [discriminate | by left].
  - vm_compute. reflexivity.
  - vm_compute. by eexists.
  - constructor.
  - right. eexists. split; [vm_compute; reflexivity | left].
  - left. reflexivity.
Defined.

(** ** What a search can return *)

(** X25. Whenever the search handler answers, the query is a non-empty
    string, which the answer repeats; the products of the answer are
    products of the collection in the order of the collection, none of
    them more often than the collection has it, and the reported count
    is their number. *)
Theorem search_returns_part_of_collection (st : Store)
    (query : gmap string string) (resp : Response) :
  searchProducts st query = Resolved resp ->
  exists q items,
    query !! "q" = Some q /\ q <> ""
    /\ resp = mkResponse 200 (SearchBody (length items) q items)
    /\ items `sublist_of` st.
Proof.
  unfold searchProducts.
  destruct (query !! "q") as [[|a q']|]; [done| |done].
  unfold exec. cbn [find q_filter q_sort q_skip q_limit].
  destruct (filter_test [CNameRegex (String a q') "i"]) as [t|]; [|done].
  cbn [covered await apply_skip apply_limit]. intros [= <-].
  exists (String a q'), (List.filter t st).
  split; [done|]. split; [done|]. split; [done|].
  clear. induction st as [|x st IH]; [done|]. cbn [List.filter].
  destruct (t x); by constructor.
Qed.

Lemma search_returns_part_of_collection_witness :
  exists q items,
    (<["q" := "o.e"]> ∅ : gmap string string) !! "q" = Some q /\ q <> ""
    /\ mkResponse 200
         (SearchBody 1 "o.e"
            [ mkProduct "2" "Smartphone" (inject_Z 800) "electronics" true 0 0 ])
       = mkResponse 200 (SearchBody (length items) q items)
    /\ items `sublist_of` seeded.
Proof.
  apply (search_returns_part_of_collection seeded (<["q" := "o.e"]> ∅)).
  vm_compute. reflexivity.
Defined.

(** ** Which ids the fetch-one route can reach *)


